(** * OCR_App: line reconstruction, document walking and the batch driver

    A shallow embedding of [src/OCR_App/ocr.py] and [src/OCR_App/main.py].

    Conventions of the embedding.
    - The numbers of the program (Python [int] and [float], numpy's
      [float64]) are the elements of a structure [numeric]: the
      comparison [<=], the arithmetic the code uses, [np.mean] and the
      literals [0.6], [8.0], [10.0] and [2].  The operations are those of
      machine numbers: they return a value (possibly a nan) and do not
      raise.  Nothing else is assumed of the arithmetic, rounding
      included; of the comparison, only that it is transitive and that
      two numbers that are not nan are comparable.  [<] and [==] are read
      off [<=], as they can be for Python's numbers.
    - A Python [str] is a [string] of code points below 256; [str.strip]
      and [str.lower] are the ones of that range.
    - [sorted] is a stable sort that asks only [<]; MathComp's [sort] is a
      stable sort, and on values without nan a stable sort is determined
      by its comparison.  With a nan among the values the order [sorted]
      returns depends on its algorithm: the statements about the order of
      the anchors or the median of the heights assume there is none
      ([anchors_ok], [heights_ok], [plain_input]).
    - A raised Python exception is a value of [exn]; code that may raise
      returns a [result].
    - The module global [_reader] is threaded explicitly ([session]).
    - The external libraries (EasyOCR, PIL, PyMuPDF, pathlib, the file
      system) are the variables of Section [Walker]. *)

From HB Require Import structures.
From mathcomp Require Import boot order algebra.
From Stdlib Require Import String Ascii.

Set Warnings "-rewrite-rw,-redundant-canonical-projection".
Set Warnings "-notation-for-abbreviation".
Set Implicit Arguments.
Unset Strict Implicit.
Unset Printing Implicit Defensive.

(** ** Strings *)

HB.instance Definition _ := hasDecEq.Build string String.eqb_spec.

Definition chr (n : nat) : string := String (ascii_of_nat n) EmptyString.

(** ["\n"], [" "] and ["\n\n"]. *)
Definition newline : string := chr 10.
Definition space : string := " "%string.
Definition blank_line : string := String.append newline newline.

(** [sep.join(ls)]. *)
Definition join (sep : string) (ls : seq string) : string := String.concat sep ls.

(** [c.isspace()] for a code point below 256: TAB, LF, VT, FF, CR, FS, GS,
    RS, US, the space, NEL (U+0085) and the no-break space (U+00A0). *)
Definition isspace (c : ascii) : bool :=
  let n := nat_of_ascii c in
  [|| (9 <= n) && (n <= 13), (28 <= n) && (n <= 32), n == 133 | n == 160].

Fixpoint lstrip (s : string) : string :=
  match s with
  | EmptyString => EmptyString
  | String c s' => if isspace c then lstrip s' else s
  end.

Fixpoint rstrip (s : string) : string :=
  match s with
  | EmptyString => EmptyString
  | String c s' =>
      let r := rstrip s' in
      if isspace c && (r == EmptyString) then EmptyString else String c r
  end.

(** [s.strip()]. *)
Definition strip (s : string) : string := rstrip (lstrip s).

(** The lowercase of a code point below 256: A-Z, and the capital letters
    U+00C0-U+00D6 and U+00D8-U+00DE, are 32 below their lowercase. *)
Definition lower_ascii (c : ascii) : ascii :=
  let n := nat_of_ascii c in
  if [|| (65 <= n) && (n <= 90), (192 <= n) && (n <= 214)
       | (216 <= n) && (n <= 222)]
  then ascii_of_nat (n + 32) else c.

(** [s.lower()]. *)
Fixpoint lower (s : string) : string :=
  match s with
  | EmptyString => EmptyString
  | String c s' => String (lower_ascii c) (lower s')
  end.

(** Truth value of a [str]: non-empty. *)
Definition truthy (s : string) : bool := s != EmptyString.

(** ** Exceptions *)

Inductive exn : Type :=
  | ValueError (msg : string)
  | StatisticsError (msg : string)
  | OSError (msg : string)
  | LibraryError (msg : string).

(** [str(exc)]. *)
Definition str_of_exn (e : exn) : string :=
  match e with
  | ValueError m => m
  | StatisticsError m => m
  | OSError m => m
  | LibraryError m => m
  end.

Inductive result (A : Type) : Type :=
  | Ok (a : A)
  | Raise (e : exn).

Arguments Ok {A} a.
Arguments Raise {A} e.

Definition exn_code (e : exn) : (string + string) + (string + string) :=
  match e with
  | ValueError m => inl (inl m)
  | StatisticsError m => inl (inr m)
  | OSError m => inr (inl m)
  | LibraryError m => inr (inr m)
  end.

Definition exn_decode (c : (string + string) + (string + string)) : exn :=
  match c with
  | inl (inl m) => ValueError m
  | inl (inr m) => StatisticsError m
  | inr (inl m) => OSError m
  | inr (inr m) => LibraryError m
  end.

Lemma exn_codeK : cancel exn_code exn_decode.
Proof. by case. Qed.

HB.instance Definition _ := Equality.copy exn (can_type exn_codeK).

Definition result_code {A : Type} (r : result A) : A + exn :=
  match r with
  | Ok a => inl a
  | Raise e => inr e
  end.

Definition result_decode {A : Type} (c : A + exn) : result A :=
  match c with
  | inl a => Ok a
  | inr e => Raise e
  end.

Lemma result_codeK (A : Type) : cancel (@result_code A) (@result_decode A).
Proof. by case. Qed.

HB.instance Definition _ (A : eqType) :=
  Equality.copy (result A) (can_type (@result_codeK A)).

Definition rbind {A B : Type} (r : result A) (k : A -> result B) : result B :=
  match r with
  | Ok a => k a
  | Raise e => Raise e
  end.

Notation "'try!' x <- r 'in' k" := (rbind r (fun x => k))
  (at level 10, x name, r at level 100, k at level 200,
   format "'[v' 'try!'  x  <-  r  'in' '/' k ']'").

(** A list comprehension whose element expression may raise. *)
Fixpoint rmap {A B : Type} (f : A -> result B) (s : seq A) : result (seq B) :=
  match s with
  | [::] => Ok [::]
  | x :: s' =>
      try! y <- f x in
      try! ys <- rmap f s' in
      Ok (y :: ys)
  end.

(** ** Numbers *)

(** The numbers the program computes with.  [num_le a b] is [a <= b];
    [num_add], [num_sub], [num_mul], [num_div] and [num_abs] are [+], [-],
    [*], [/] and [abs] as the interpreter evaluates them (rounding
    included); [np_mean] is [np.mean] on a list.  A value [a] with
    [num_le a a] false is a nan. *)
Record numeric : Type := Numeric {
  num :> eqType;
  num_le : rel num;
  num_add : num -> num -> num;
  num_sub : num -> num -> num;
  num_mul : num -> num -> num;
  num_div : num -> num -> num;
  num_abs : num -> num;
  np_mean : seq num -> num;
  lit_0_6 : num;
  lit_8 : num;
  lit_10 : num;
  lit_2 : num;
  num_le_trans : transitive num_le;
  num_le_total :
    forall a b : num, num_le a a -> num_le b b -> num_le a b || num_le b a
}.

Arguments lit_0_6 : clear implicits.
Arguments lit_8 : clear implicits.
Arguments lit_10 : clear implicits.
Arguments lit_2 : clear implicits.

(** The [text] field of a detection is an arbitrary Python object; only the
    [str] case carries data the code looks at. *)
Inductive pyobj : Type :=
  | PyStr (s : string)
  | PyNone
  | PyInt (n : int).

Definition pyobj_code (o : pyobj) : string + option int :=
  match o with
  | PyStr s => inl s
  | PyNone => inr None
  | PyInt n => inr (Some n)
  end.

Definition pyobj_decode (c : string + option int) : pyobj :=
  match c with
  | inl s => PyStr s
  | inr None => PyNone
  | inr (Some n) => PyInt n
  end.

Lemma pyobj_codeK : cancel pyobj_code pyobj_decode.
Proof. by case. Qed.

HB.instance Definition _ := Equality.copy pyobj (can_type pyobj_codeK).

(** [isinstance(o, str)]. *)
Definition is_str (o : pyobj) : bool :=
  if o is PyStr _ then true else false.

Section Reconstructor.

Variable N : numeric.

Local Notation le := (@num_le N).

(** [a] is not a nan. *)
Definition is_number (a : N) : bool := le a a.

(** [a < b] and [a == b]. *)
Definition num_lt (a b : N) : bool := le a b && ~~ le b a.
Definition num_eq (a b : N) : bool := le a b && le b a.

(** One step of [max] and of [min] over an iterable: the running value [m]
    is replaced by [x] when [x > m], resp. [x < m]; [max(a, b)] is
    [pymax a b]. *)
Definition pymax (m x : N) : N := if num_lt m x then x else m.
Definition pymin (m x : N) : N := if num_lt x m then x else m.

(** ** Detections *)

(** A point [pt] with [pt[0]] its x- and [pt[1]] its y-coordinate. *)
Definition point : Type := (N * N)%type.

Definition bbox : Type := seq point.

(** One element [(bbox, text, conf)] of [reader.readtext]'s result. *)
Definition detection : Type := (bbox * pyobj * N)%type.

Definition det_bbox (d : detection) : bbox := d.1.1.
Definition det_text (d : detection) : pyobj := d.1.2.

(** [[pt[0] for pt in bbox]] and [[pt[1] for pt in bbox]]. *)
Definition xs_of (b : bbox) : seq N := [seq pt.1 | pt <- b].
Definition ys_of (b : bbox) : seq N := [seq pt.2 | pt <- b].

(** The tuples [(mean y, mean x, bbox, text)] built in [_group_by_line]. *)
Definition item : Type := (N * N * bbox * string)%type.

Definition item0 (it : item) : N := it.1.1.1.
Definition item1 (it : item) : N := it.1.1.2.
Definition item2 (it : item) : bbox := it.1.2.
Definition item3 (it : item) : string := it.2.

(** The filter [isinstance(text, str) and text.strip()] of the generator in
    [_group_by_line]. *)
Definition keeps (d : detection) : bool :=
  if det_text d is PyStr s then truthy (strip s) else false.

(** One step of that generator: the tuple is built only when the filter
    holds. *)
Definition item_of (d : detection) : option item :=
  let: (bbox, text, _conf) := d in
  if text is PyStr s then
    if truthy (strip s)
    then Some (np_mean (ys_of bbox), np_mean (xs_of bbox), bbox, s)
    else None
  else None.

(** The key [(item[0], item[1])] of the sort. *)
Definition sort_key (it : item) : N * N := (item0 it, item1 it).

(** [p < q] on tuples of two numbers: the first components that differ
    decide.  (Tuples also take a component for equal to itself when it is
    the same object, which matters for a nan only.) *)
Definition tuple_lt (p q : N * N) : bool :=
  if ~~ num_eq p.1 q.1 then num_lt p.1 q.1
  else if ~~ num_eq p.2 q.2 then num_lt p.2 q.2
  else false.

(** A stable sort that asks only [<] leaves [p] before [q] unless
    [q < p]. *)
Definition tuple_le (p q : N * N) : bool := ~~ tuple_lt q p.

Definition key_le (a b : item) : bool := tuple_le (sort_key a) (sort_key b).

Definition sorted_items (results : seq detection) : seq item :=
  sort key_le (pmap item_of results).

(** [abs(item[0] - prev[0]) <= line_spacing]. *)
Definition near (line_spacing : N) (prev it : item) : bool :=
  le (num_abs (num_sub (item0 it) (item0 prev))) line_spacing.

(** [lines[-1].append(item)]: the last list of [lines] is extended in
    place. *)
Definition append_to_last (lines : seq (seq item)) (it : item) : seq (seq item) :=
  rcons (take (size lines).-1 lines) (rcons (last [::] lines) it).

(** The [for item in sorted_items[1:]] loop of [_group_by_line]. *)
Fixpoint group_loop (line_spacing : N) (lines : seq (seq item))
    (items : seq item) : seq (seq item) :=
  match items with
  | [::] => lines
  | it :: rest =>
      let prev_line := last [::] lines in
      if near line_spacing (last it prev_line) it
      then group_loop line_spacing (append_to_last lines it) rest
      else group_loop line_spacing (rcons lines [:: it]) rest
  end.

Definition _group_by_line (results : seq detection) (line_spacing : N)
    : seq (seq item) :=
  match sorted_items results with
  | [::] => [::]
  | first :: rest => group_loop line_spacing [:: [:: first]] rest
  end.

(** ** Formatting *)

(** [max(l) - min(l)] for a list with first element [y]. *)
Definition span (y : N) (ys : seq N) : N :=
  num_sub (foldl pymax y ys) (foldl pymin y ys).

(** [max(pt[1] for pt in bbox) - min(pt[1] for pt in bbox)]; [max] and
    [min] raise [ValueError] on an empty iterable (the wording of the
    message varies with the interpreter; no statement depends on it). *)
Definition height (b : bbox) : result N :=
  match ys_of b with
  | [::] => Raise (ValueError "max() arg is an empty sequence")
  | y :: ys => Ok (span y ys)
  end.

(** The middle of sorted data: the value [statistics.median] returns on a
    non-empty list. *)
Definition middle (data : seq N) : N :=
  let n := size data in
  if odd n then nth (lit_2 N) data (n %/ 2)
  else
    let i := n %/ 2 in
    num_div (num_add (nth (lit_2 N) data i.-1) (nth (lit_2 N) data i)) (lit_2 N).

(** [sorted(data)]. *)
Definition sorted_numbers (data : seq N) : seq N :=
  sort (fun a b => ~~ num_lt b a) data.

(** [statistics.median]. *)
Definition median (data : seq N) : result N :=
  let data := sorted_numbers data in
  if size data == 0 then Raise (StatisticsError "no median for empty data")
  else Ok (middle data).

(** [typical_height] and [line_spacing] of [_format_results], from the
    list [heights]. *)
Definition spacing_of_heights (heights : seq N) : result N :=
  try! typical_height <-
    (if heights is [::] then Ok (lit_10 N) else median heights) in
  Ok (pymax (num_mul typical_height (lit_0_6 N)) (lit_8 N)).

(** The value of the local [line_spacing] of [_format_results] for a
    non-empty [results]. *)
Definition line_spacing_of (results : seq detection) : result N :=
  try! heights <- rmap height [seq det_bbox d | d <- results] in
  spacing_of_heights heights.

(** One pass of the output loop: [line_sorted] and [line_text]. *)
Definition line_sorted (line : seq item) : seq item :=
  sort (fun a b => ~~ num_lt (item1 b) (item1 a)) line.

Definition line_text (line : seq item) : string :=
  join space [seq strip (item3 segment) | segment <- line_sorted line].

(** The list [output_lines] at the end of [_format_results]. *)
Definition output_lines (results : seq detection) : result (seq string) :=
  try! line_spacing <- line_spacing_of results in
  Ok [seq line_text line | line <- _group_by_line results line_spacing].

Definition _format_results (results : seq detection) : result string :=
  if results is [::] then Ok EmptyString
  else
    try! lines <- output_lines results in
    Ok (join newline lines).

(** ** Well-formed input *)

(** Every region has at least one point (the engine gives four). *)
Definition regions_ok (results : seq detection) : bool :=
  all (fun d => det_bbox d != [::]) results.

(** The height of a region with at least one point. *)
Definition height_of (b : bbox) : N :=
  span (head (lit_2 N) (ys_of b)) (behead (ys_of b)).

(** The list [heights] of [_format_results]. *)
Definition heights_of (results : seq detection) : seq N :=
  [seq height_of (det_bbox d) | d <- results].

(** No height is a nan. *)
Definition heights_ok (results : seq detection) : bool :=
  all is_number (heights_of results).

(** Both anchors of an item are numbers, not nan. *)
Definition anchored_by_numbers (it : item) : bool :=
  is_number (item0 it) && is_number (item1 it).

(** The same for every detection the filter keeps ([np.mean] of the
    coordinates of a region without points is nan). *)
Definition anchors_ok (results : seq detection) : bool :=
  all anchored_by_numbers (pmap item_of results).

(** A list of numbers, none of them nan, in which values that compare
    equal are the same value (as the values of one floating-point type
    are, the two zeros apart). *)
Definition plain_numbers (data : seq N) : bool :=
  all (fun a => is_number a && all (fun b => num_eq a b ==> (a == b)) data) data.

(** The heights and the anchors of [results] are such lists. *)
Definition plain_input (results : seq detection) : bool :=
  [&& plain_numbers (heights_of results),
      plain_numbers [seq item0 it | it <- pmap item_of results]
    & plain_numbers [seq item1 it | it <- pmap item_of results]].

(** ** The grouping written as the specification words it *)

(** [chain t g x rest]: the current Line Group is [g] followed by [x], the
    Detection added last; each Detection of [rest] is appended to the
    current group when its vertical anchor is within [t] of the one added
    last, and otherwise closes the group and seeds a new one. *)
Fixpoint chain (t : N) (g : seq item) (x : item) (rest : seq item)
    : seq (seq item) :=
  match rest with
  | [::] => [:: rcons g x]
  | y :: rest' =>
      if near t x y then chain t (rcons g x) y rest'
      else rcons g x :: chain t [::] y rest'
  end.

Definition greedy_groups (t : N) (items : seq item) : seq (seq item) :=
  if items is first :: rest then chain t [::] first rest else [::].

(** A new group starts beyond the threshold: the seed of [g2] is not near
    the last member of [g1]. *)
Definition breaks (t : N) (g1 g2 : seq item) : bool :=
  if g2 is y :: _ then ~~ near t (last y g1) y else false.

(** Ascending by the pair (vertical anchor, horizontal anchor). *)
Definition lex_le (a b : item) : bool :=
  num_lt (item0 a) (item0 b) ||
  (num_eq (item0 a) (item0 b) && le (item1 a) (item1 b)).

(** The anchors of an item are the means of its region's coordinates. *)
Definition anchored (it : item) : bool :=
  (item0 it == np_mean (ys_of (item2 it))) &&
  (item1 it == np_mean (xs_of (item2 it))).

(** ** Facts about the comparisons *)

Lemma not_lt_le (a b : N) :
  is_number a -> is_number b -> ~~ num_lt b a = le a b.
Proof.
rewrite /num_lt negb_and negbK => a_num b_num.
have := num_le_total a_num b_num.
by case: (le a b); case: (le b a).
Qed.

(** Both components of a key are numbers. *)
Definition number_pair (p : N * N) : bool := is_number p.1 && is_number p.2.

(** On keys without nan [tuple_le] is the lexicographic order. *)
Lemma tuple_leE (p q : N * N) :
  number_pair p -> number_pair q ->
  tuple_le p q = num_lt p.1 q.1 || (num_eq p.1 q.1 && le p.2 q.2).
Proof.
case/andP=> p1 p2 /andP [q1 q2]; rewrite /tuple_le /tuple_lt.
have := num_le_total p1 q1; have := num_le_total p2 q2.
rewrite /num_eq /num_lt.
by case: (le p.1 q.1); case: (le q.1 p.1); case: (le p.2 q.2);
   case: (le q.2 p.2).
Qed.

Lemma tuple_le_total : {in number_pair &, total tuple_le}.
Proof.
move=> p q p_num q_num; rewrite !tuple_leE //.
case/andP: p_num => p1 p2; case/andP: q_num => q1 q2.
have := num_le_total p1 q1; have := num_le_total p2 q2.
rewrite /num_eq /num_lt.
by case: (le p.1 q.1); case: (le q.1 p.1); case: (le p.2 q.2);
   case: (le q.2 p.2).
Qed.

Lemma tuple_le_trans : {in number_pair & &, transitive tuple_le}.
Proof.
move=> q p r q_num p_num r_num; rewrite !tuple_leE // /num_lt /num_eq.
case pq: (le p.1 q.1) => //=; case qr: (le q.1 r.1); rewrite ?andbF //=.
have pr := num_le_trans pq qr; rewrite pr /=.
case rp: (le r.1 p.1) => //=.
have qp := num_le_trans qr rp; have rq := num_le_trans rp pq.
by rewrite qp rq /=; exact: num_le_trans.
Qed.

Lemma tuple_le_eq (p q : N * N) :
  number_pair p -> number_pair q -> tuple_le p q && tuple_le q p ->
  num_eq p.1 q.1 && num_eq p.2 q.2.
Proof.
move=> p_num q_num; rewrite !tuple_leE // /num_lt /num_eq.
by case: (le p.1 q.1); case: (le q.1 p.1); case: (le p.2 q.2);
   case: (le q.2 p.2).
Qed.

Lemma key_le_total : {in anchored_by_numbers &, total key_le}.
Proof. by move=> a b a_num b_num; exact: tuple_le_total. Qed.

Lemma key_le_trans : {in anchored_by_numbers & &, transitive key_le}.
Proof. by move=> b a c b_num a_num c_num; exact: tuple_le_trans. Qed.

Lemma key_leE : {in anchored_by_numbers &, key_le =2 lex_le}.
Proof. by move=> a b a_num b_num; exact: tuple_leE. Qed.

Lemma x_leE :
  {in anchored_by_numbers &,
    (fun a b : item => ~~ num_lt (item1 b) (item1 a)) =2
    (fun a b : item => le (item1 a) (item1 b))}.
Proof. by move=> a b /andP [_ a1] /andP [_ b1]; exact: not_lt_le. Qed.

Lemma x_le_total :
  {in anchored_by_numbers &,
    total (fun a b : item => ~~ num_lt (item1 b) (item1 a))}.
Proof.
move=> a b a_num b_num; rewrite !x_leE //.
by case/andP: a_num => _ a1; case/andP: b_num => _ b1; exact: num_le_total.
Qed.

Lemma perm_sorted_items (results : seq detection) :
  perm_eq (sorted_items results) (pmap item_of results).
Proof. by rewrite /sorted_items perm_sort. Qed.

Lemma sorted_items_numbers (results : seq detection) :
  anchors_ok results -> all anchored_by_numbers (sorted_items results).
Proof. by rewrite /anchors_ok /sorted_items all_sort. Qed.

Lemma sorted_sorted_items (results : seq detection) :
  anchors_ok results -> sorted key_le (sorted_items results).
Proof. by move=> ok; exact: sort_sorted_in key_le_total _ ok. Qed.

Lemma lex_sorted_items (results : seq detection) :
  anchors_ok results -> sorted lex_le (sorted_items results).
Proof.
move=> ok; rewrite -(eq_in_sorted key_leE (sorted_items_numbers ok)).
exact: sorted_sorted_items.
Qed.

(** Plain lists of numbers. *)
Lemma plain_number (data : seq N) (a : N) :
  plain_numbers data -> a \in data -> is_number a.
Proof. by move/allP => plain /plain /andP []. Qed.

Lemma plain_eq (data : seq N) (a b : N) :
  plain_numbers data -> a \in data -> b \in data -> num_eq a b -> a = b.
Proof.
move/allP => plain /plain /andP [_ /allP same] /same /implyP same_ab.
by move/same_ab/eqP.
Qed.

Lemma plain_numbers_perm (data data' : seq N) :
  perm_eq data data' -> plain_numbers data -> plain_numbers data'.
Proof.
move=> p plain; apply/allP => a; rewrite -(perm_mem p) => a_in.
rewrite (plain_number plain a_in) /=; apply/allP => b.
rewrite -(perm_mem p) => b_in; apply/implyP => ab.
by rewrite (plain_eq plain a_in b_in ab).
Qed.

(** [sorted] gives one list for all the orders of plain data. *)
Lemma sorted_numbers_perm (data data' : seq N) :
  perm_eq data data' -> plain_numbers data ->
  sorted_numbers data' = sorted_numbers data.
Proof.
move=> p plain; apply/esym/perm_sort_inP => // [a b a_in b_in|b a c b_in a_in c_in|a b a_in b_in].
- have a_num := plain_number plain a_in; have b_num := plain_number plain b_in.
  by rewrite !not_lt_le //; exact: num_le_total.
- have a_num := plain_number plain a_in; have b_num := plain_number plain b_in.
  have c_num := plain_number plain c_in.
  by rewrite !not_lt_le //; exact: num_le_trans.
- have a_num := plain_number plain a_in; have b_num := plain_number plain b_in.
  by rewrite !not_lt_le //; exact: plain_eq plain a_in b_in.
Qed.

(** ** The loop of [_group_by_line] is the chained grouping *)

Lemma append_to_last_rcons (ls : seq (seq item)) (g : seq item) (it : item) :
  append_to_last (rcons ls g) it = rcons ls (rcons g it).
Proof.
by rewrite /append_to_last size_rcons /= last_rcons -(cats1 ls g) take_size_cat.
Qed.

Lemma group_loop_chain (t : N) (items : seq item) :
  forall (ls : seq (seq item)) (g : seq item) (x : item),
  group_loop t (rcons ls (rcons g x)) items = ls ++ chain t g x items.
Proof.
elim: items => [|y rest IH] ls g x /=; first by rewrite cats1.
rewrite !last_rcons; case: ifP => _.
  by rewrite append_to_last_rcons IH.
by rewrite (IH (rcons ls (rcons g x)) [::] y) cat_rcons.
Qed.

Lemma group_by_line_greedy_groups (results : seq detection) (t : N) :
  _group_by_line results t = greedy_groups t (sorted_items results).
Proof.
rewrite /_group_by_line /greedy_groups.
case: (sorted_items results) => [|first rest] //.
exact: (group_loop_chain t rest [::] [::] first).
Qed.

Lemma flatten_chain (t : N) (rest : seq item) :
  forall (g : seq item) (x : item),
  flatten (chain t g x rest) = g ++ x :: rest.
Proof.
elim: rest => [|y rest IH] g x /=; first by rewrite cats0 cats1.
by case: ifP => _ /=; rewrite IH ?cat_rcons // cats1.
Qed.

Lemma chain_nonempty (t : N) (rest : seq item) :
  forall (g : seq item) (x : item),
  all (fun l => l != [::]) (chain t g x rest).
Proof.
elim: rest => [|y rest IH] g x /=.
  by rewrite andbT; case: g.
case: ifP => _ /=; first exact: IH.
by rewrite IH andbT; case: g.
Qed.

Lemma chain_near (t : N) (rest : seq item) :
  forall (g : seq item) (x : item),
  sorted (near t) (rcons g x) ->
  all (sorted (near t)) (chain t g x rest).
Proof.
elim: rest => [|y rest IH] g x gx /=; first by rewrite gx.
case: ifP => xy /=; last by rewrite gx; exact: IH.
apply: IH; rewrite -cats1 -cat_rcons cats0.
case: g gx => [|z g] /=; first by rewrite xy.
by rewrite !rcons_path last_rcons xy => ->.
Qed.

Lemma head_chain (t : N) (rest : seq item) :
  forall (g : seq item) (x y0 : item) (d : seq item),
  head y0 (head d (chain t g x rest)) = head x g.
Proof.
elim: rest => [|y rest IH] g x y0 d /=; first by case: g.
by case: ifP => _ /=; [rewrite IH|]; case: g.
Qed.

Lemma chain_shape (t : N) (rest : seq item) :
  forall (g : seq item) (x : item),
  exists h tl, chain t g x rest = (rcons g x ++ h) :: tl.
Proof.
elim: rest => [|y rest IH] g x /=; first by exists [::], [::]; rewrite cats0.
case: ifP => _; last by exists [::], (chain t [::] y rest); rewrite cats0.
have [h [tl ->]] := IH (rcons g x) y.
by exists (y :: h), tl; rewrite cat_rcons.
Qed.

Lemma chain_breaks (t : N) (rest : seq item) :
  forall (g : seq item) (x : item),
  sorted (breaks t) (chain t g x rest).
Proof.
elim: rest => [|y rest IH] g x //=.
case: ifP => xy; first exact: IH.
have := IH [::] y; have [h [tl ->]] := chain_shape t rest [::] y.
by rewrite /= last_rcons xy => ->.
Qed.

(** When every member is near its predecessor there is one group. *)
Lemma chain_all_near (t : N) (rest : seq item) :
  forall (g : seq item) (x : item),
  path (near t) x rest -> chain t g x rest = [:: rcons g x ++ rest].
Proof.
elim: rest => [|y rest IH] g x /=; first by rewrite cats0.
by case/andP=> -> /IH ->; rewrite cat_rcons.
Qed.

(** When no member is near its predecessor every group is a singleton. *)
Lemma chain_all_far (t : N) (rest : seq item) :
  forall (g : seq item) (x : item),
  path (fun a b => ~~ near t a b) x rest ->
  chain t g x rest = rcons g x :: [seq [:: y] | y <- rest].
Proof.
elim: rest => [|y rest IH] g x //=.
by case/andP=> /negbTE -> /IH ->.
Qed.

(** A symmetric relation that holds pairwise keeps doing so when the list
    is permuted. *)
Lemma pairwise_perm (T : eqType) (r : rel T) (s1 s2 : seq T) :
  symmetric r -> perm_eq s1 s2 -> pairwise r s1 -> pairwise r s2.
Proof.
move=> r_sym; elim: s1 s2 => [|x s1 IH] s2.
  by move/perm_size/esym/size0nil => ->.
move=> p12; have xs2 : x \in s2 by rewrite -(perm_mem p12) mem_head.
pose i := seq.index x s2.
have i_lt : (i < size s2)%N by rewrite index_mem.
have s2i : nth x s2 i = x by rewrite nth_index.
have s2E : s2 = take i s2 ++ x :: drop i.+1 s2.
  by rewrite -{1}(cat_take_drop i s2) (drop_nth x i_lt) s2i.
move: p12; rewrite s2E perm_sym perm_catC /= perm_cons perm_catC perm_sym.
move=> p12 /=; case/andP=> x_s1 /(IH _ p12).
rewrite !pairwise_cat /= => /and3P [ab pa pb].
have x_all y : y \in take i s2 ++ drop i.+1 s2 -> r x y.
  by rewrite -(perm_mem p12); move/allP: x_s1; apply.
rewrite pa pb allrel_consr ab !andbT /=; apply/andP; split.
  by apply/allP=> y yin; rewrite r_sym x_all // mem_cat yin.
by apply/allP=> y yin; rewrite x_all // mem_cat yin orbT.
Qed.

(** The items the filter produces. *)
Lemma size_pmap_item_of (results : seq detection) :
  size (pmap item_of results) = count keeps results.
Proof.
rewrite size_pmap; apply: eq_count => -[[b txt] c].
by rewrite /keeps /item_of /det_text /=; case: txt => //= s; case: ifP.
Qed.

Lemma item_of_keeps (d : detection) : (item_of d : bool) = keeps d.
Proof.
case: d => -[b txt] c; rewrite /keeps /item_of /det_text /=.
by case: txt => //= s; case: ifP.
Qed.

Lemma item_of_anchors (d : detection) (it : item) :
  item_of d = Some it ->
  [/\ item0 it = np_mean (ys_of (det_bbox d)),
      item1 it = np_mean (xs_of (det_bbox d)),
      item2 it = det_bbox d
    & det_text d = PyStr (item3 it)].
Proof.
case: d => -[b txt] c; rewrite /item_of /=.
by case: txt => //= s; case: ifP => // _ [<-].
Qed.

Lemma pmap_item_of_anchored (results : seq detection) :
  all anchored (pmap item_of results).
Proof.
apply/allP => it; rewrite mem_pmap => /mapP [d _ /esym d_it].
have [v h b _] := item_of_anchors d_it.
by rewrite /anchored v h b !eqxx.
Qed.

(** ** The threshold *)

(** The threshold [_format_results] computes from [results]: the middle of
    the sorted heights of every element of [results], scaled and floored. *)
Definition typical_height_of (results : seq detection) : N :=
  middle (sorted_numbers (heights_of results)).

Definition threshold_of (results : seq detection) : N :=
  pymax (num_mul (typical_height_of results) (lit_0_6 N)) (lit_8 N).

(** The threshold as the specification words it: the heights are taken
    after the filter of step 1. *)
Definition spec_threshold (results : seq detection) : N :=
  threshold_of [seq d <- results | keeps d].

Lemma height_nonempty (b : bbox) : b != [::] -> height b = Ok (height_of b).
Proof. by case: b. Qed.

Lemma rmap_height (results : seq detection) :
  regions_ok results ->
  rmap height [seq det_bbox d | d <- results] = Ok (heights_of results).
Proof.
elim: results => [|d results IH] //= /andP [d_ok /IH ->].
by rewrite (height_nonempty d_ok).
Qed.

Lemma rmap_height_ok (results : seq detection) (hs : seq N) :
  rmap height [seq det_bbox d | d <- results] = Ok hs -> regions_ok results.
Proof.
elim: results hs => [|d results IH] //= hs.
case: (det_bbox d) => [|pt b] //=.
by case E: (rmap _ _) => [hs'|] //= _; apply: IH E.
Qed.

Lemma median_nonempty (data : seq N) :
  data != [::] -> median data = Ok (middle (sorted_numbers data)).
Proof. by rewrite /median /sorted_numbers size_sort; case: data. Qed.

Lemma line_spacing_of_ok (results : seq detection) :
  results != [::] -> regions_ok results ->
  line_spacing_of results = Ok (threshold_of results).
Proof.
move=> nonempty ok; rewrite /line_spacing_of (rmap_height ok) /=.
rewrite /spacing_of_heights.
case: results nonempty {ok} => [|d results] //= _.
by rewrite median_nonempty.
Qed.

Lemma line_spacing_regions (results : seq detection) (t : N) :
  line_spacing_of results = Ok t -> regions_ok results.
Proof.
rewrite /line_spacing_of.
by case E: (rmap _ _) => [hs|] //= _; apply: rmap_height_ok E.
Qed.

(** C2, amended: on a non-empty detection list whose regions have
    points (and heights that are numbers), the line-spacing threshold is
    [max(H * 0.6, 8.0)], evaluated as the program evaluates it, where [H]
    is the median of the heights (largest minus smallest y-coordinate) of
    every detection handed to [_format_results], those with blank or
    non-string text included; it is the threshold of the specification
    when the filter drops nothing. *)
Theorem threshold_from_all_detections (results : seq detection) :
  results != [::] -> regions_ok results -> heights_ok results ->
  [/\ rmap height [seq det_bbox d | d <- results] = Ok (heights_of results),
      median (heights_of results) = Ok (typical_height_of results),
      line_spacing_of results =
        Ok (pymax (num_mul (typical_height_of results) (lit_0_6 N)) (lit_8 N))
    & all keeps results ->
      line_spacing_of results = Ok (spec_threshold results)].
Proof.
move=> nonempty ok _; split.
- exact: rmap_height.
- by rewrite median_nonempty //; case: results nonempty {ok}.
- exact: line_spacing_of_ok.
- move=> kept; rewrite /spec_threshold; move/all_filterP: kept => ->.
  exact: line_spacing_of_ok.
Qed.

(** ** Sorting and grouping *)

(** C1: on a non-empty filtered detection set (whose anchors are numbers),
    [_group_by_line] sorts the kept detections ascending by (vertical
    anchor, horizontal anchor), the anchors being the means of the region's
    y- and x-coordinates, and then groups them in one greedy pass: the
    result is the chained grouping of the sorted list.  Concatenating the
    groups gives back the sorted list, the first sorted detection seeds the
    first group, no group is empty, inside a group every detection is
    within the threshold of the one added just before it, and every later
    group is seeded by a detection that is not within the threshold of the
    last detection of the group before. *)
Theorem group_by_line_sorts_then_chains (results : seq detection)
    (line_spacing : N) :
  anchors_ok results ->
  pmap item_of results != [::] ->
  let groups := _group_by_line results line_spacing in
  [/\ [/\ perm_eq (flatten groups) (pmap item_of results),
          all anchored (flatten groups)
        & sorted lex_le (flatten groups)],
      groups = greedy_groups line_spacing (sorted_items results),
      flatten groups = sorted_items results,
      [/\ all (fun g => g != [::]) groups,
          all (sorted (near line_spacing)) groups
        & sorted (breaks line_spacing) groups]
    & forall first : item,
        head first (head [::] groups) = head first (sorted_items results)].
Proof.
move=> numbers nonempty groups.
have groupsE : groups = greedy_groups line_spacing (sorted_items results).
  exact: group_by_line_greedy_groups.
have flat : flatten groups = sorted_items results.
  rewrite groupsE /greedy_groups.
  by case: (sorted_items results) => [|first rest] //; rewrite flatten_chain.
split=> //.
- rewrite flat; split; first exact: perm_sorted_items.
    by rewrite (perm_all _ (perm_sorted_items results)) pmap_item_of_anchored.
  exact: lex_sorted_items.
- rewrite groupsE /greedy_groups.
  case: (sorted_items results) => [|first rest] //.
  by split; [exact: chain_nonempty | exact: chain_near | exact: chain_breaks].
- move=> first; rewrite groupsE /greedy_groups.
  case: (sorted_items results) => [|x rest] //=.
  by rewrite head_chain.
Qed.

(** ** Lines of the output *)

Lemma format_results_output_lines (results : seq detection) (lines : seq string) :
  output_lines results = Ok lines ->
  _format_results results = Ok (join newline lines).
Proof.
case: results => [|d results]; last by rewrite /_format_results => ->.
rewrite /output_lines /line_spacing_of /= /spacing_of_heights /=.
by case=> <-.
Qed.

(** [abs(a[0] - b[0]) > line_spacing], whichever of the two is subtracted
    from the other. *)
Definition far_apart (t : N) (a b : item) : bool :=
  num_lt t (num_abs (num_sub (item0 b) (item0 a))) &&
  num_lt t (num_abs (num_sub (item0 a) (item0 b))).

Lemma far_apart_sym (t : N) : symmetric (far_apart t).
Proof. by move=> a b; rewrite /far_apart andbC. Qed.

Lemma far_apart_not_near (t : N) (a b : item) :
  far_apart t a b -> ~~ near t a b.
Proof. by rewrite /far_apart /near /num_lt => /andP [/andP [_ ->] _]. Qed.

(** C3: when every detection has a non-empty trimmed text and the vertical
    anchors of every two detections differ by strictly more than the
    line-spacing threshold (the one the program computes, from heights that
    are numbers), [_format_results] produces one output line per
    detection: as many lines as detections, each the trimmed text of one
    detection, in sorted order. *)
Theorem far_apart_gives_one_line_each (results : seq detection)
    (line_spacing : N) :
  all keeps results ->
  heights_ok results ->
  line_spacing_of results = Ok line_spacing ->
  pairwise (far_apart line_spacing) (pmap item_of results) ->
  let lines := [seq strip (item3 it) | it <- sorted_items results] in
  [/\ output_lines results = Ok lines,
      size lines = size results,
      perm_eq (sorted_items results) (pmap item_of results)
    & _format_results results = Ok (join newline lines)].
Proof.
move=> kept _ spacing far lines.
have groups : _group_by_line results line_spacing =
              [seq [:: it] | it <- sorted_items results].
  rewrite group_by_line_greedy_groups /greedy_groups.
  have := pairwise_perm (@far_apart_sym line_spacing) _ far.
  move/(_ (sorted_items results)); rewrite perm_sym perm_sorted_items.
  move/(_ isT)/(sub_pairwise (@far_apart_not_near line_spacing))/pairwise_sorted.
  by case: (sorted_items results) => [|first rest] //= /chain_all_far ->.
have out : output_lines results = Ok lines.
  by rewrite /output_lines spacing /= groups -map_comp.
split=> //.
- rewrite /lines size_map (perm_size (perm_sorted_items results)).
  by rewrite size_pmap_item_of; move: kept; rewrite all_count => /eqP.
- exact: perm_sorted_items.
- exact: format_results_output_lines.
Qed.

(** ** One line, and the order of the input *)

(** Detections with the same two anchors have the same trimmed text. *)
Definition same_anchors_same_text (items : seq item) : bool :=
  all (fun a => all (fun b =>
    (sort_key a == sort_key b) ==> (strip (item3 a) == strip (item3 b)))
    items) items.

Lemma plain_input_anchors (results : seq detection) :
  plain_input results -> anchors_ok results.
Proof.
case/and3P=> _ ys xs; apply/allP => it it_in; apply/andP; split.
  by apply: plain_number ys _; exact: map_f.
by apply: plain_number xs _; exact: map_f.
Qed.

(** On plain anchors the order of the keys is a total order. *)
Lemma plain_keys (items : seq item) :
  plain_numbers [seq item0 it | it <- items] ->
  plain_numbers [seq item1 it | it <- items] ->
  let keys := [seq sort_key it | it <- items] in
  [/\ {in keys &, total tuple_le},
      {in keys & &, transitive tuple_le}
    & {in keys &, antisymmetric tuple_le}].
Proof.
move=> ys xs keys.
have fst_in p : p \in keys -> p.1 \in [seq item0 it | it <- items].
  by case/mapP => it it_in ->; exact: map_f.
have snd_in p : p \in keys -> p.2 \in [seq item1 it | it <- items].
  by case/mapP => it it_in ->; exact: map_f.
have numbers p : p \in keys -> number_pair p.
  move=> p_in; apply/andP; split.
    exact: plain_number ys (fst_in _ p_in).
  exact: plain_number xs (snd_in _ p_in).
split.
- by move=> p q /numbers p_num /numbers q_num; exact: tuple_le_total.
- move=> q p r /numbers q_num /numbers p_num /numbers r_num.
  exact: tuple_le_trans.
- move=> [p1 p2] [q1 q2] p_in q_in.
  move/(tuple_le_eq (numbers _ p_in) (numbers _ q_in)) => /andP [e1 e2].
  have /= -> := plain_eq ys (fst_in _ p_in) (fst_in _ q_in) e1.
  by have /= -> := plain_eq xs (snd_in _ p_in) (snd_in _ q_in) e2.
Qed.

(** The keys come out of the first sort in one order, whatever the order
    of the input. *)
Lemma sort_key_sorted_items (results results' : seq detection) :
  perm_eq results results' -> plain_input results ->
  [seq sort_key it | it <- sorted_items results'] =
  [seq sort_key it | it <- sorted_items results].
Proof.
move=> p /and3P [_ ys xs]; rewrite /sorted_items.
have -> : sort key_le = sort (relpre sort_key tuple_le) by [].
rewrite -!sort_map; have [tot trans anti] := plain_keys ys xs.
apply/esym/(perm_sort_inP _ tot trans anti).
by rewrite perm_map // perm_pmap.
Qed.

Lemma sorted_near_keys (t : N) (s s' : seq item) :
  [seq sort_key it | it <- s'] = [seq sort_key it | it <- s] ->
  sorted (near t) s' = sorted (near t) s.
Proof.
move=> keys.
have -> : sorted (near t) =
          sorted (relpre sort_key
                    (fun p r : N * N => le (num_abs (num_sub r.1 p.1)) t)) by [].
by rewrite -!sorted_map keys.
Qed.

Lemma sort_key_line_sorted (s s' : seq item) :
  [seq sort_key it | it <- s'] = [seq sort_key it | it <- s] ->
  [seq sort_key it | it <- line_sorted s'] =
  [seq sort_key it | it <- line_sorted s].
Proof.
move=> keys; rewrite /line_sorted.
have -> : sort (fun a b : item => ~~ num_lt (item1 b) (item1 a)) =
          sort (relpre sort_key (fun p r : N * N => ~~ num_lt r.2 p.2)) by [].
by rewrite -!sort_map keys.
Qed.

Lemma mem_line_sorted_items (results : seq detection) :
  line_sorted (sorted_items results) =i pmap item_of results.
Proof.
move=> it; rewrite /line_sorted mem_sort.
exact: perm_mem (perm_sorted_items results) it.
Qed.

Lemma heights_of_perm (results results' : seq detection) :
  perm_eq results results' -> perm_eq (heights_of results) (heights_of results').
Proof. by move=> p; rewrite perm_map. Qed.

Lemma plain_input_perm (results results' : seq detection) :
  perm_eq results results' -> plain_input results -> plain_input results'.
Proof.
move=> p /and3P [hs ys xs]; apply/and3P; split.
- exact: plain_numbers_perm (heights_of_perm p) hs.
- by apply: plain_numbers_perm ys; rewrite perm_map // perm_pmap.
- by apply: plain_numbers_perm xs; rewrite perm_map // perm_pmap.
Qed.

Lemma threshold_of_perm (results results' : seq detection) :
  perm_eq results results' -> plain_input results ->
  threshold_of results' = threshold_of results.
Proof.
move=> p /and3P [hs _ _]; rewrite /threshold_of /typical_height_of.
by rewrite (sorted_numbers_perm (heights_of_perm p) hs).
Qed.

Lemma line_spacing_of_perm (results results' : seq detection) (t : N) :
  perm_eq results results' -> plain_input results ->
  line_spacing_of results = Ok t -> line_spacing_of results' = Ok t.
Proof.
move=> p plain spacing.
have ok := line_spacing_regions spacing.
have ok' : regions_ok results' by rewrite /regions_ok -(perm_all _ p).
case: results results' p plain spacing ok ok'
  => [|d results] results' p plain spacing ok ok'.
  by move/perm_size/esym/size0nil: p => ->.
have nonempty' : results' != [::] by rewrite -size_eq0 -(perm_size p).
move: spacing; rewrite line_spacing_of_ok // => -[<-].
by rewrite line_spacing_of_ok // (threshold_of_perm p).
Qed.

(** With every member near its predecessor there is one output line. *)
Lemma output_lines_one_group (results : seq detection) (t : N) :
  pmap item_of results != [::] ->
  line_spacing_of results = Ok t ->
  sorted (near t) (sorted_items results) ->
  output_lines results = Ok [:: line_text (sorted_items results)].
Proof.
move=> nonempty spacing chained.
rewrite /output_lines spacing /= group_by_line_greedy_groups /greedy_groups.
have: sorted_items results != [::].
  by rewrite -size_eq0 (perm_size (perm_sorted_items results)) size_eq0.
case: (sorted_items results) chained => [|first rest] //= chained _.
by rewrite (chain_all_near _ chained).
Qed.

(** Items with the same keys, position by position, and the same text for
    the same key, have the same texts. *)
Lemma texts_of_keys (items s s' : seq item) :
  same_anchors_same_text items ->
  {subset s <= items} -> {subset s' <= items} ->
  [seq sort_key it | it <- s'] = [seq sort_key it | it <- s] ->
  [seq strip (item3 it) | it <- s'] = [seq strip (item3 it) | it <- s].
Proof.
move=> same; elim: s s' => [|a s IH] [|a' s'] //= sub sub' [key0 key1 keys].
have key : sort_key a' = sort_key a by rewrite /sort_key key0 key1.
have a_in : a \in items by apply: sub; rewrite mem_head.
have a'_in : a' \in items by apply: sub'; rewrite mem_head.
move/allP/(_ a' a'_in)/allP/(_ a a_in): (same); rewrite key eqxx /= => /eqP ->.
congr (_ :: _); apply: IH keys => it it_in.
  by apply: sub; rewrite in_cons it_in orbT.
by apply: sub'; rewrite in_cons it_in orbT.
Qed.

Lemma line_text_perm (results results' : seq detection) :
  perm_eq results results' -> plain_input results ->
  same_anchors_same_text (pmap item_of results) ->
  line_text (sorted_items results') = line_text (sorted_items results).
Proof.
move=> p plain same; rewrite /line_text; congr (join _ _).
apply: (texts_of_keys same).
- by move=> it; rewrite mem_line_sorted_items.
- by move=> it; rewrite mem_line_sorted_items (perm_mem (perm_pmap item_of p)).
- exact: sort_key_line_sorted (sort_key_sorted_items p plain).
Qed.

(** C4, amended: when every detection has a non-empty trimmed text
    (anchors and heights being numbers, not nan) and, in sorted order, each
    detection's vertical anchor is within the line-spacing threshold of its
    predecessor's, [_format_results] produces exactly one output line, the
    trimmed texts of all detections joined by single spaces in ascending
    order of horizontal anchor; and the output is the same for every
    permutation of the input provided detections that share both anchors
    have the same trimmed text and anchors, and heights, that compare
    equal are the same value. *)
Theorem chained_detections_give_one_line (results : seq detection)
    (line_spacing : N) :
  results != [::] ->
  all keeps results ->
  anchors_ok results ->
  heights_ok results ->
  line_spacing_of results = Ok line_spacing ->
  sorted (near line_spacing) (sorted_items results) ->
  let members := line_sorted (sorted_items results) in
  let line := join space [seq strip (item3 it) | it <- members] in
  [/\ output_lines results = Ok [:: line],
      _format_results results = Ok line,
      perm_eq members (pmap item_of results),
      sorted le [seq item1 it | it <- members]
    & forall results' : seq detection,
        perm_eq results results' ->
        plain_input results ->
        same_anchors_same_text (pmap item_of results) ->
        _format_results results' = Ok line].
Proof.
move=> nonempty kept numbers _ spacing chained members line.
have items_nonempty s : s != [::] -> all keeps s -> pmap item_of s != [::].
  move=> s0; rewrite all_count -size_eq0 size_pmap_item_of => /eqP ->.
  by rewrite size_eq0.
have out := output_lines_one_group (items_nonempty _ nonempty kept) spacing chained.
have members_num : all anchored_by_numbers members.
  by rewrite /members /line_sorted all_sort sorted_items_numbers.
split=> //.
- by rewrite (format_results_output_lines out).
- by rewrite /members /line_sorted perm_sort perm_sorted_items.
- rewrite sorted_map -(eq_in_sorted x_leE members_num).
  exact: sort_sorted_in x_le_total _ (sorted_items_numbers numbers).
- move=> results' p plain same.
  have nonempty' : results' != [::] by rewrite -size_eq0 -(perm_size p) size_eq0.
  have kept' : all keeps results' by rewrite -(perm_all _ p).
  have spacing' := line_spacing_of_perm p plain spacing.
  have chained' : sorted (near line_spacing) (sorted_items results').
    by rewrite (sorted_near_keys _ (sort_key_sorted_items p plain)).
  have := output_lines_one_group (items_nonempty _ nonempty' kept') spacing' chained'.
  by move/format_results_output_lines; rewrite (line_text_perm p plain same).
Qed.

(** ** Detections the filter drops *)

(** Whitespace-only text. *)
Definition blank (d : detection) : bool :=
  if det_text d is PyStr s then strip s == EmptyString else false.

Lemma blank_not_kept (d : detection) : blank d -> ~~ keeps d.
Proof. by rewrite /blank /keeps /truthy; case: (det_text d) => // s ->. Qed.

Lemma not_str_not_kept (d : detection) : ~~ is_str (det_text d) -> ~~ keeps d.
Proof. by rewrite /keeps; case: (det_text d). Qed.

Lemma item_of_dropped (d : detection) : ~~ keeps d -> item_of d = None.
Proof. by rewrite -item_of_keeps; case: (item_of d). Qed.

Lemma pmap_item_of_dropped (results : seq detection) :
  all (fun d => ~~ keeps d) results -> pmap item_of results = [::].
Proof.
by elim: results => [|d results IH] //= /andP [/item_of_dropped -> /IH].
Qed.

(** A dropped detection takes no part in the grouping, whatever its
    region. *)
Lemma group_by_line_dropped (d : detection) (before after : seq detection)
    (t : N) :
  ~~ keeps d ->
  _group_by_line (before ++ d :: after) t = _group_by_line (before ++ after) t.
Proof.
move=> dropped; rewrite /_group_by_line /sorted_items !pmap_cat /=.
by rewrite (item_of_dropped dropped).
Qed.

Lemma group_by_line_all_dropped (results : seq detection) (t : N) :
  all (fun d => ~~ keeps d) results -> _group_by_line results t = [::].
Proof.
by move=> dropped; rewrite /_group_by_line /sorted_items pmap_item_of_dropped.
Qed.

Lemma format_results_all_dropped (results : seq detection) :
  all (fun d => ~~ keeps d) results -> regions_ok results ->
  _format_results results = Ok EmptyString.
Proof.
case: results => [|d results] // dropped ok.
apply: (@format_results_output_lines _ [::]).
rewrite /output_lines line_spacing_of_ok //=.
by rewrite group_by_line_all_dropped.
Qed.

Lemma format_results_bad_region (results : seq detection) :
  results != [::] -> ~~ regions_ok results ->
  exists e, _format_results results = Raise e.
Proof.
case: results => [|d results] // _ bad.
rewrite /_format_results /output_lines /line_spacing_of.
case E: (rmap _ _) => [hs|e] /=; last by exists e.
by rewrite (rmap_height_ok E) in bad.
Qed.

(** C10, amended: a detection whose text is not a string is dropped by the
    filter of [_group_by_line] just as a whitespace-only one is: whatever
    its region, grouping does not raise and the detection is in no Line
    Group (the groups are those of the input without it), and an input of
    such detections only gives no group at all.  [_format_results] returns
    the empty string on an input of such detections only when every
    region has at least one point, and raises otherwise. *)
Theorem non_string_text_is_dropped (d : detection)
    (before after others : seq detection) (line_spacing : N) :
  ~~ is_str (det_text d) ->
  all (fun d' => ~~ is_str (det_text d')) others ->
  [/\ item_of d = None,
      _group_by_line (before ++ d :: after) line_spacing =
      _group_by_line (before ++ after) line_spacing,
      _group_by_line others line_spacing = [::],
      regions_ok others -> _format_results others = Ok EmptyString
    & others != [::] -> ~~ regions_ok others ->
      exists e, _format_results others = Raise e].
Proof.
move=> d_not_str others_not_str.
have dropped : all (fun d' => ~~ keeps d') others.
  by apply: sub_all others_not_str => d'; exact: not_str_not_kept.
split.
- exact/item_of_dropped/not_str_not_kept.
- exact/group_by_line_dropped/not_str_not_kept.
- exact: group_by_line_all_dropped.
- exact: format_results_all_dropped.
- exact: format_results_bad_region.
Qed.

(** ** When the Page Text is empty *)

Lemma append_truthy (a b : string) : truthy a -> truthy (String.append a b).
Proof. by case: a. Qed.

Lemma join_truthy (sep : string) (ls : seq string) :
  ls != [::] -> all truthy ls -> truthy (join sep ls).
Proof.
case: ls => [|x [|y ls]] //= _ /andP [x_ok _] //.
exact: append_truthy.
Qed.

Lemma join_empty (sep : string) (ls : seq string) :
  all truthy ls -> (join sep ls == EmptyString) = (ls == [::]).
Proof.
case: ls => [|x ls] // ok.
by apply: negbTE; exact: (@join_truthy sep (x :: ls)).
Qed.

Lemma kept_items_have_text (results : seq detection) :
  all (fun it => truthy (strip (item3 it))) (pmap item_of results).
Proof.
apply/allP => it; rewrite mem_pmap => /mapP [[[b txt] c] _].
by rewrite /item_of; case: txt => // s; case: ifP => // ok [->].
Qed.

Lemma line_text_truthy (line : seq item) :
  line != [::] -> all (fun it => truthy (strip (item3 it))) line ->
  truthy (line_text line).
Proof.
move=> nonempty texts; rewrite /line_text; apply: join_truthy.
  by rewrite -size_eq0 size_map size_sort size_eq0.
by rewrite all_map /line_sorted all_sort.
Qed.

Lemma size_flatten_nonempty (T : Type) (ss : seq (seq T)) :
  all (fun s => 0 < size s)%N ss -> (size ss <= size (flatten ss))%N.
Proof.
elim: ss => [|s ss IH] //= /andP [s_pos /IH le_ss].
by rewrite size_cat -add1n leq_add.
Qed.

Lemma flatten_group_by_line (results : seq detection) (t : N) :
  flatten (_group_by_line results t) = sorted_items results.
Proof.
rewrite group_by_line_greedy_groups /greedy_groups.
by case: (sorted_items results) => [|first rest] //; rewrite flatten_chain.
Qed.

Lemma group_by_line_nonempty (results : seq detection) (t : N) :
  all (fun g => g != [::]) (_group_by_line results t).
Proof.
rewrite group_by_line_greedy_groups /greedy_groups.
by case: (sorted_items results) => [|first rest] //; exact: chain_nonempty.
Qed.

Lemma size_group_by_line (results : seq detection) (t : N) :
  (size (_group_by_line results t) <= count keeps results)%N.
Proof.
rewrite -size_pmap_item_of -(perm_size (perm_sorted_items results)).
rewrite -(flatten_group_by_line results t); apply: size_flatten_nonempty.
apply: sub_all (group_by_line_nonempty results t) => g.
by rewrite -size_eq0 lt0n.
Qed.

Lemma group_by_line_empty (results : seq detection) (t : N) :
  (_group_by_line results t == [::]) = ~~ has keeps results.
Proof.
rewrite has_count -size_pmap_item_of -(perm_size (perm_sorted_items results)).
rewrite -leqNgt leqn0 size_eq0 group_by_line_greedy_groups /greedy_groups.
case: (sorted_items results) => [|first rest] //=.
by have [h [tl ->]] := chain_shape t rest [::] first.
Qed.

(** X8: on well-formed regions [_format_results] returns lines none of which
    is empty, at most one per kept detection, and its result is the empty
    string exactly when the filter keeps no detection. *)
Theorem page_text_empty_iff_nothing_kept (results : seq detection) :
  regions_ok results ->
  exists lines : seq string,
    [/\ _format_results results = Ok (join newline lines),
        all truthy lines,
        (size lines <= count keeps results)%N,
        (lines == [::]) = ~~ has keeps results
      & (_format_results results == Ok EmptyString) = ~~ has keeps results].
Proof.
move=> ok.
have [t spacing] : exists t, line_spacing_of results = Ok t.
  case: results ok => [|d results] ok; last by eexists; exact: line_spacing_of_ok.
  by eexists; rewrite /line_spacing_of /= /spacing_of_heights /=.
pose lines := [seq line_text line | line <- _group_by_line results t].
have out : output_lines results = Ok lines by rewrite /output_lines spacing.
have fmt := format_results_output_lines out.
have texts : all truthy lines.
  rewrite all_map; apply/allP => g g_in /=; apply: line_text_truthy.
    by move/allP: (group_by_line_nonempty results t); apply.
  apply/allP => it it_in; move/allP: (kept_items_have_text results); apply.
  rewrite -(perm_mem (perm_sorted_items results)) -(flatten_group_by_line _ t).
  by apply/flattenP; exists g.
have empty : (lines == [::]) = ~~ has keeps results.
  by rewrite -size_eq0 size_map size_eq0 group_by_line_empty.
exists lines; split=> //; first by rewrite size_map size_group_by_line.
by rewrite fmt -empty -(join_empty newline texts); apply/eqP/eqP => [[]|->].
Qed.

(** ** The confidence is never looked at *)

Lemma item_of_region_text (d d' : detection) :
  d.1 = d'.1 -> item_of d = item_of d'.
Proof. by case: d d' => [[b txt] c] [[b' txt'] c'] /= [-> ->]. Qed.

Lemma pmap_item_of_region_text (results results' : seq detection) :
  [seq d.1 | d <- results] = [seq d.1 | d <- results'] ->
  pmap item_of results = pmap item_of results'.
Proof.
elim: results results' => [|d results IH] [|d' results'] //= [dd' /IH ->].
by rewrite (item_of_region_text dd').
Qed.

(** X9: two detection lists with the same regions and texts, whatever their
    confidences, give the same result. *)
Theorem format_results_ignores_confidence (results results' : seq detection) :
  [seq d.1 | d <- results] = [seq d.1 | d <- results'] ->
  _format_results results = _format_results results'.
Proof.
move=> same.
have boxes : [seq det_bbox d | d <- results] = [seq det_bbox d | d <- results'].
  by rewrite /det_bbox (map_comp fst fst) same -map_comp.
have items := pmap_item_of_region_text same.
rewrite /_format_results /output_lines /line_spacing_of boxes.
rewrite /_group_by_line /sorted_items items.
by case: results results' same {boxes items} => [|d results] [|d' results'].
Qed.

(** ** The floor of the threshold *)

Lemma pymax_floor (x floor : N) :
  is_number floor -> is_number (pymax x floor) ->
  le floor (pymax x floor) /\ (pymax x floor = floor \/ pymax x floor = x).
Proof.
rewrite /pymax => floor_num; case: ifP => [_ _|not_lt x_num].
  by split; [|left].
split; last by right.
by rewrite -(not_lt_le floor_num x_num) not_lt.
Qed.

(** X10: the line-spacing threshold, when it is a number, is never below
    [8.0]: it is [8.0] or the scaled median height, whichever is larger. *)
Theorem threshold_at_least_floor (results : seq detection) (line_spacing : N) :
  results != [::] ->
  heights_ok results ->
  is_number (lit_8 N) ->
  line_spacing_of results = Ok line_spacing ->
  is_number line_spacing ->
  le (lit_8 N) line_spacing /\
  (line_spacing = lit_8 N \/
   line_spacing = num_mul (typical_height_of results) (lit_0_6 N)).
Proof.
move=> nonempty _ floor_num spacing; have ok := line_spacing_regions spacing.
move: spacing; rewrite line_spacing_of_ok // => -[<-].
exact: pymax_floor.
Qed.

(** ** The number of groups and the threshold *)

(** The number of places where a list is cut into groups. *)
Fixpoint cuts (t : N) (x : item) (s : seq item) : nat :=
  if s is y :: s' then (~~ near t x y + cuts t y s')%N else 0%N.

Lemma size_chain (t : N) (s : seq item) :
  forall (g : seq item) (x : item), size (chain t g x s) = (cuts t x s).+1.
Proof.
elim: s => [|y s IH] g x //=.
by case: ifP => _ /=; rewrite IH.
Qed.

Lemma cuts_mono (t t' : N) (s : seq item) :
  le t t' -> forall x : item, (cuts t' x s <= cuts t x s)%N.
Proof.
move=> tt'; elim: s => [|y s IH] x //=.
apply: leq_add (IH y).
case xy: (near t x y) => /=; last by case: (near t' x y).
by rewrite /near (num_le_trans xy tt').
Qed.

(** X12: a larger threshold never gives more Line Groups. *)
Theorem larger_threshold_fewer_groups (results : seq detection) (t t' : N) :
  le t t' ->
  (size (_group_by_line results t') <= size (_group_by_line results t))%N.
Proof.
move=> tt'; rewrite !group_by_line_greedy_groups /greedy_groups.
case: (sorted_items results) => [|first rest] //.
by rewrite !size_chain ltnS; exact: cuts_mono.
Qed.

(** ** The order of the input, for any number of lines *)

Lemma chain_keys (t : N) (s s' : seq item) :
  [seq sort_key it | it <- s'] = [seq sort_key it | it <- s] ->
  forall (g g' : seq item) (x x' : item),
  [seq sort_key it | it <- g'] = [seq sort_key it | it <- g] ->
  sort_key x' = sort_key x ->
  [seq [seq sort_key it | it <- l] | l <- chain t g' x' s'] =
  [seq [seq sort_key it | it <- l] | l <- chain t g x s].
Proof.
elim: s s' => [|y s IH] [|y' s'] //= => [_|[y0 y1 ss']] g g' x x' gg' xx'.
  by rewrite !map_rcons gg' xx'.
have yy' : sort_key y' = sort_key y by rewrite /sort_key y0 y1.
have -> : near t x' y' = near t x y.
  by rewrite /near y0; case: xx' => ->.
case: ifP => _ /=.
  by apply: IH => //; rewrite !map_rcons gg' xx'.
by rewrite !map_rcons gg' xx' (IH _ ss' [::] [::] y y').
Qed.

Lemma group_keys_perm (results results' : seq detection) (t : N) :
  perm_eq results results' -> plain_input results ->
  [seq [seq sort_key it | it <- l] | l <- _group_by_line results' t] =
  [seq [seq sort_key it | it <- l] | l <- _group_by_line results t].
Proof.
move=> p plain; have := sort_key_sorted_items p plain.
rewrite !group_by_line_greedy_groups /greedy_groups.
case: (sorted_items results) (sorted_items results') => [|x s] [|x' s'] //=.
by case=> x0 x1 ss'; apply: chain_keys => //; rewrite /sort_key x0 x1.
Qed.

Lemma line_text_keys (items line line' : seq item) :
  same_anchors_same_text items ->
  {subset line <= items} -> {subset line' <= items} ->
  [seq sort_key it | it <- line'] = [seq sort_key it | it <- line] ->
  line_text line' = line_text line.
Proof.
move=> same sub sub' keys; rewrite /line_text; congr (join _ _).
apply: (texts_of_keys same) (sort_key_line_sorted keys).
  by move=> it; rewrite /line_sorted mem_sort; exact: sub.
by move=> it; rewrite /line_sorted mem_sort; exact: sub'.
Qed.

Lemma lines_text_keys (items : seq item) (groups groups' : seq (seq item)) :
  same_anchors_same_text items ->
  {subset flatten groups <= items} -> {subset flatten groups' <= items} ->
  [seq [seq sort_key it | it <- l] | l <- groups'] =
  [seq [seq sort_key it | it <- l] | l <- groups] ->
  [seq line_text l | l <- groups'] = [seq line_text l | l <- groups].
Proof.
move=> same.
elim: groups groups' => [|g groups IH] [|g' groups'] //= sub sub' [gg' rest].
congr (_ :: _).
  apply: (line_text_keys same) gg'.
    by move=> it it_in; apply: sub; rewrite mem_cat it_in.
  by move=> it it_in; apply: sub'; rewrite mem_cat it_in.
apply: IH rest.
  by move=> it it_in; apply: sub; rewrite mem_cat it_in orbT.
by move=> it it_in; apply: sub'; rewrite mem_cat it_in orbT.
Qed.

Lemma line_spacing_of_bad (results : seq detection) :
  ~~ regions_ok results ->
  line_spacing_of results = Raise (ValueError "max() arg is an empty sequence").
Proof.
move=> bad; rewrite /line_spacing_of.
suff -> : rmap height [seq det_bbox d | d <- results] =
          Raise (ValueError "max() arg is an empty sequence") by [].
elim: results bad => [|d results IH] //=.
by case: (det_bbox d) => [|pt b] //= /IH ->.
Qed.

Lemma line_spacing_of_perm_eq (results results' : seq detection) :
  perm_eq results results' -> plain_input results ->
  line_spacing_of results' = line_spacing_of results.
Proof.
move=> p plain; case E: (line_spacing_of results) => [t|e].
  exact: line_spacing_of_perm p plain E.
have bad : ~~ regions_ok results.
  apply/negP => ok; move: E; rewrite /line_spacing_of (rmap_height ok) /=.
  rewrite /spacing_of_heights /heights_of; case: results {p plain ok} => [|d results] //=.
  by rewrite median_nonempty.
have bad' : ~~ regions_ok results' by rewrite /regions_ok -(perm_all _ p).
by move: E; rewrite !line_spacing_of_bad.
Qed.

(** X13: the result does not depend on the order of the detections, provided
    detections that share both anchors have the same trimmed text (heights
    and anchors being plain numbers). *)
Theorem format_results_any_order (results results' : seq detection) :
  perm_eq results results' ->
  plain_input results ->
  same_anchors_same_text (pmap item_of results) ->
  _format_results results' = _format_results results.
Proof.
move=> p plain same.
have out : output_lines results' = output_lines results.
  rewrite /output_lines (line_spacing_of_perm_eq p plain).
  case: (line_spacing_of results) => [t|e] //=; congr (Ok _).
  apply: (lines_text_keys same); last exact: group_keys_perm.
    by move=> it; rewrite flatten_group_by_line (perm_mem (perm_sorted_items _)).
  move=> it; rewrite flatten_group_by_line (perm_mem (perm_sorted_items _)).
  by rewrite (perm_mem (perm_pmap item_of p)).
rewrite /_format_results out.
by case: results results' p {plain same out} => [|d results] [|d' results'] // /perm_size.
Qed.

End Reconstructor.

(** * Examples

    The numbers of the examples are rationals, with a nan for the mean of
    an empty list.  The coordinates of the examples are small integers, on
    which the program's floating-point operations give the values computed
    here: the means and differences are exact, and [55 * 0.6] and
    [10 * 0.6] round to [33.0] and [6.0]. *)

Import Order.TTheory GRing.Theory Num.Theory.

Local Open Scope ring_scope.

Definition exact : Type := option rat.

Definition exact_le (a b : exact) : bool :=
  match a, b with
  | Some x, Some y => x <= y
  | _, _ => false
  end.

Definition exact_op (f : rat -> rat -> rat) (a b : exact) : exact :=
  match a, b with
  | Some x, Some y => Some (f x y)
  | _, _ => None
  end.

(** The program divides by [2] and by the length of a non-empty list
    only. *)
Definition exact_div (a b : exact) : exact :=
  match a, b with
  | Some x, Some y => if y == 0 then None else Some (x / y)
  | _, _ => None
  end.

Definition exact_abs (a : exact) : exact :=
  if a is Some x then Some `|x| else None.

(** The sum of the list divided by its length; nan for the empty list. *)
Definition exact_mean (l : seq exact) : exact :=
  if l is [::] then None
  else exact_div (foldr (exact_op +%R) (Some 0) l) (Some (size l)%:R).

Lemma exact_le_trans : transitive exact_le.
Proof. by move=> [y|] [x|] [z|] //=; exact: le_trans. Qed.

Lemma exact_le_total (a b : exact) :
  exact_le a a -> exact_le b b -> exact_le a b || exact_le b a.
Proof. by case: a b => [x|] [y|] //= _ _; exact: le_total. Qed.

Definition exact_numbers : numeric :=
  @Numeric (option rat : eqType) exact_le
    (exact_op +%R) (exact_op (fun x y => x - y)) (exact_op *%R) exact_div
    exact_abs exact_mean
    (Some (3%:Q / 5%:Q)) (Some 8%:Q) (Some 10%:Q) (Some 2%:Q)
    exact_le_trans exact_le_total.

Definition q (n : nat) : exact_numbers := Some n%:Q.

(** The rectangle with corners [(x0, y0)] and [(x1, y1)]. *)
Definition box (x0 y0 x1 y1 : nat) : bbox exact_numbers :=
  [:: (q x0, q y0); (q x1, q y0); (q x1, q y1); (q x0, q y1)].

(** The example of the specification. *)
Definition example_page : seq (detection exact_numbers) :=
  [:: (box 0 0 10 10, PyStr "Hello", q 1);
      (box 15 1 25 11, PyStr "World", q 1);
      (box 0 50 10 60, PyStr "Second", q 1)].

Example format_example_page :
  _format_results example_page =
  Ok (String.append "Hello World" (String.append newline "Second")).
Proof. by vm_compute. Qed.

Example format_example_page_shuffled :
  _format_results (rev example_page) = _format_results example_page.
Proof. by vm_compute. Qed.

Definition tall_blank : seq (detection exact_numbers) :=
  [:: (box 0 0 10 100, PyStr " ", q 1); (box 0 0 10 10, PyStr "a", q 1)].

(** C2, as stated, fails: a tall detection with blank text is dropped by
    the filter but still counts in the median.  Heights [100] and [10]
    give the median [55] and the threshold [33]; the surviving detection
    alone gives [max (6, 8) = 8]. *)
Lemma threshold_counts_dropped_detections :
  [/\ line_spacing_of tall_blank = Ok (q 33),
      spec_threshold tall_blank = q 8
    & line_spacing_of tall_blank <> Ok (spec_threshold tall_blank)].
Proof.
have E1 : line_spacing_of tall_blank = Ok (q 33) by apply/eqP; vm_compute.
have E2 : spec_threshold tall_blank = q 8 by apply/eqP; vm_compute.
split; [exact: E1 | exact: E2 |].
by rewrite E1 E2 => /eqP; vm_compute.
Qed.

Lemma threshold_from_all_detections_witness :
  line_spacing_of example_page = Ok (q 8).
Proof.
have nonempty : example_page != [::] by [].
have ok : regions_ok example_page by vm_compute.
have heights : heights_ok example_page by vm_compute.
have [_ _ -> _] := threshold_from_all_detections nonempty ok heights.
by apply/eqP; vm_compute.
Defined.

Lemma group_by_line_sorts_then_chains_witness :
  flatten (_group_by_line example_page (q 8)) = sorted_items example_page /\
  sorted (@lex_le exact_numbers) (flatten (_group_by_line example_page (q 8))).
Proof.
have numbers : anchors_ok example_page by vm_compute.
have nonempty : pmap (@item_of exact_numbers) example_page != [::] by vm_compute.
have [[_ _ srt] _ flat _ _] :=
  group_by_line_sorts_then_chains (q 8) numbers nonempty.
split; [exact: flat | exact: srt].
Defined.

Definition stacked_page : seq (detection exact_numbers) :=
  [:: (box 0 100 10 110, PyStr "three", q 1);
      (box 0 0 10 10, PyStr " one ", q 1);
      (box 0 50 10 60, PyStr "two", q 1)].

Lemma far_apart_gives_one_line_each_witness :
  _format_results stacked_page =
  Ok (join newline [:: "one"; "two"; "three"]%string).
Proof.
have kept : all (@keeps exact_numbers) stacked_page by vm_compute.
have heights : heights_ok stacked_page by vm_compute.
have spacing : line_spacing_of stacked_page = Ok (q 8) by apply/eqP; vm_compute.
have far : pairwise (far_apart (q 8)) (pmap (@item_of exact_numbers) stacked_page).
  by vm_compute.
have [_ _ _ ->] := far_apart_gives_one_line_each kept heights spacing far.
by vm_compute.
Defined.

Definition twins : seq (detection exact_numbers) :=
  [:: (box 0 0 10 10, PyStr "a", q 1); (box 0 0 10 10, PyStr "b", q 1)].

(** C4, as stated, fails: two detections with the same anchors and
    different texts are one line in either order, but the stable sorts
    keep them in the order of the input. *)
Lemma same_anchors_follow_input_order :
  [/\ all (@keeps exact_numbers) twins /\ plain_input twins,
      line_spacing_of twins = Ok (q 8),
      sorted (near (q 8)) (sorted_items twins),
      perm_eq twins (rev twins)
    & [/\ _format_results twins = Ok "a b"%string,
          _format_results (rev twins) = Ok "b a"%string
        & _format_results (rev twins) <> _format_results twins]].
Proof.
have E1 : _format_results twins = Ok "a b"%string by vm_compute.
have E2 : _format_results (rev twins) = Ok "b a"%string by vm_compute.
split; [by split; vm_compute | by apply/eqP; vm_compute | by vm_compute
       | by vm_compute |].
by split; rewrite ?E1 ?E2.
Qed.

Definition one_line : seq (detection exact_numbers) :=
  [:: (box 15 1 25 11, PyStr "World", q 1); (box 0 0 10 10, PyStr "Hello", q 1)].

Lemma chained_detections_give_one_line_witness :
  _format_results one_line = Ok "Hello World"%string /\
  _format_results (rev one_line) = Ok "Hello World"%string.
Proof.
have nonempty : one_line != [::] by [].
have kept : all (@keeps exact_numbers) one_line by vm_compute.
have numbers : anchors_ok one_line by vm_compute.
have heights : heights_ok one_line by vm_compute.
have spacing : line_spacing_of one_line = Ok (q 8) by apply/eqP; vm_compute.
have chained : sorted (near (q 8)) (sorted_items one_line) by vm_compute.
have [_ E _ _ P] :=
  chained_detections_give_one_line nonempty kept numbers heights spacing chained.
have p : perm_eq one_line (rev one_line) by vm_compute.
have plain : plain_input one_line by vm_compute.
have same : same_anchors_same_text (pmap (@item_of exact_numbers) one_line).
  by vm_compute.
split; first by rewrite E; vm_compute.
by rewrite (P _ p plain same); vm_compute.
Defined.

Definition no_region : detection exact_numbers := ([::], PyNone, q 1).

(** C10, as stated, fails: [_format_results] takes the height of every
    region before any filtering, and [max] raises on a region without
    points, also when the detection's text is not a string. *)
Lemma non_string_text_with_empty_region_raises :
  ~~ is_str (det_text no_region) /\
  _format_results [:: no_region] =
  Raise (ValueError "max() arg is an empty sequence").
Proof. by split; vm_compute. Qed.

Definition numbers_page : seq (detection exact_numbers) :=
  [:: (box 0 0 10 10, PyInt 7, q 1); (box 0 50 10 60, PyNone, q 1)].

Lemma non_string_text_is_dropped_witness :
  _group_by_line (example_page ++ no_region :: numbers_page) (q 8) =
  _group_by_line (example_page ++ numbers_page) (q 8) /\
  _format_results numbers_page = Ok EmptyString.
Proof.
have d_not_str : ~~ is_str (det_text no_region) by [].
have others_not_str :
  all (fun d' : detection exact_numbers => ~~ is_str (det_text d')) numbers_page.
  by [].
have [_ E _ F _] := non_string_text_is_dropped example_page numbers_page (q 8)
                      d_not_str others_not_str.
split; first exact: E.
by apply: F; vm_compute.
Defined.

Lemma page_text_empty_iff_nothing_kept_witness :
  regions_ok example_page /\
  (_format_results example_page == Ok EmptyString) = ~~ has (@keeps exact_numbers) example_page.
Proof.
have ok : regions_ok example_page by vm_compute.
have [lines [_ _ _ _ E]] := page_text_empty_iff_nothing_kept ok.
by split; [exact: ok | exact: E].
Defined.

Lemma format_results_ignores_confidence_witness :
  _format_results [:: (box 0 0 10 10, PyStr "A", q 1)] =
  _format_results [:: (box 0 0 10 10, PyStr "A", q 0)].
Proof. exact: format_results_ignores_confidence. Defined.

Lemma threshold_at_least_floor_witness :
  exact_le (q 8) (q 8) /\ line_spacing_of example_page = Ok (q 8).
Proof.
have nonempty : example_page != [::] by [].
have heights : heights_ok example_page by vm_compute.
have floor_num : is_number (lit_8 exact_numbers) by vm_compute.
have spacing : line_spacing_of example_page = Ok (q 8) by apply/eqP; vm_compute.
have t_num : is_number (q 8) by vm_compute.
have [floor _] :=
  threshold_at_least_floor nonempty heights floor_num spacing t_num.
by split; [exact: floor | exact: spacing].
Defined.

Lemma larger_threshold_fewer_groups_witness :
  (size (_group_by_line example_page (q 100)) <=
   size (_group_by_line example_page (q 8)))%N.
Proof. by apply: larger_threshold_fewer_groups; vm_compute. Defined.

Lemma format_results_any_order_witness :
  _format_results (rev example_page) = _format_results example_page.
Proof.
have p : perm_eq example_page (rev example_page) by rewrite perm_sym perm_rev.
have plain : plain_input example_page by vm_compute.
have same : same_anchors_same_text (pmap (@item_of exact_numbers) example_page).
  by vm_compute.
exact: format_results_any_order p plain same.
Defined.

Local Close Scope ring_scope.

(** * The engine session, the Document Walker and the Batch Driver *)

(** ** The engine session *)

(** An [easyocr.Reader], with the arguments it was constructed from;
    [reader_id] is the identity of the object. *)
Record Reader : Type := MkReader {
  reader_id : nat;
  lang_list : seq string;
  gpu : bool;
  model_storage_directory : string;
  user_network_directory : string;
  download_enabled : bool
}.

(** The module state: the global [_reader] and the number of readers
    constructed so far. *)
Record session : Type := MkSession {
  _reader : option Reader;
  constructed : nat
}.

Definition fresh_session : session := MkSession None 0.

Definition _DEFAULT_LANGUAGES : seq string := [:: "en"%string].

Definition _SUPPORTED_IMAGE_EXTENSIONS : seq string :=
  [:: ".png"; ".jpg"; ".jpeg"; ".bmp"; ".tiff"; ".tif"]%string.

(** [_SUPPORTED_FILE_TYPES] of [main.py]. *)
Definition _SUPPORTED_FILE_TYPES : seq string :=
  [:: ".pdf"; ".png"; ".jpg"; ".jpeg"; ".bmp"; ".tiff"; ".tif"]%string.

(** Computations that read and write the session and may raise. *)
Definition M (A : Type) : Type := session -> result A * session.

Definition ret {A : Type} (a : A) : M A := fun s => (Ok a, s).

Definition raise {A : Type} (e : exn) : M A := fun s => (Raise e, s).

Definition lift {A : Type} (r : result A) : M A := fun s => (r, s).

Definition bind {A B : Type} (m : M A) (k : A -> M B) : M B :=
  fun s =>
    match m s with
    | (Ok a, s') => k a s'
    | (Raise e, s') => (Raise e, s')
    end.

Notation "'do!' x <- m 'in' k" := (bind m (fun x => k))
  (at level 10, x name, m at level 100, k at level 200,
   format "'[v' 'do!'  x  <-  m  'in' '/' k ']'").

(** ** [main.py]: the language list *)

Definition is_char (k : ascii) (c : ascii) : bool := Ascii.eqb c k.

(** [s.split(",")]. *)
Fixpoint split_commas (s : string) : seq string :=
  match s with
  | EmptyString => [:: EmptyString]
  | String c s' =>
      let r := split_commas s' in
      if is_char "," c then EmptyString :: r
      else String c (head EmptyString r) :: behead r
  end.

Definition _normalize_languages (languages : seq string) : seq string :=
  let cleaned :=
    [seq lower (strip token)
       | token <- flatten [seq split_commas lang | lang <- languages]] in
  sort String.leb (undup [seq c <- cleaned | truthy c]).

(** [requested_languages or None]. *)
Definition languages_arg_of (languages : seq string) : option (seq string) :=
  if _normalize_languages languages is [::] then None
  else Some (_normalize_languages languages).

Definition placeholder : string := "(No text detected)".

(** [text or "(No text detected)"]. *)
Definition or_placeholder (text : string) : string :=
  if truthy text then text else placeholder.

(** [a or b] on values that are [None] or a [str]. *)
Definition py_or (a b : option string) : option string :=
  match a with
  | Some s => if truthy s then a else b
  | None => b
  end.

Section Walker.

Variable N : numeric.

(** [pathlib]: the paths, [Path(s)] for a [str], [path.name],
    [path.suffix] and [path.exists()], which asks the file system and may
    raise [OSError]. *)
Variable Path : Type.
Variable Path_of_str : string -> Path.
Variable Path_name : Path -> string.
Variable Path_suffix : Path -> string.
Variable path_exists : Path -> result bool.

(** The other libraries: images and pages are opaque, and every call may
    raise. *)
Variables Image Page : Type.

(** [str(_MODEL_ROOT)]. *)
Variable _MODEL_ROOT : string.

(** [reader.readtext(np.array(image.convert("RGB")))]. *)
Variable readtext : Reader -> Image -> result (seq (detection N)).

(** [Image.open(path)]. *)
Variable Image_open : Path -> result Image.

(** [fitz.open(pdf_path)] and the pages [document[0]], ... *)
Variable fitz_open : Path -> result (seq Page).

(** [Image.open(io.BytesIO(page.get_pixmap(matrix=fitz.Matrix(2, 2)).tobytes("png")))]. *)
Variable render : Page -> result Image.

(** ** [main.py]: the references to files *)

(** One element of [files]: a [str], a [Path], a [dict] (seen through
    [item.get("name")] and [item.get("path")]) or another object (seen
    through [getattr(item, "name", None)] and [getattr(item, "path", None)]). *)
Inductive file_ref : Type :=
  | RefStr (s : string)
  | RefPath (p : Path)
  | RefDict (name path : option string)
  | RefObject (name path : option string).

(** The argument [files]: [None], one reference, or a list or tuple. *)
Inductive files_arg : Type :=
  | FilesNone
  | FilesSingle (item : file_ref)
  | FilesList (items : seq file_ref).

(** The body of the loop of [_resolve_file_paths]. *)
Definition resolve_item (item : file_ref) : seq Path :=
  match item with
  | RefStr s => [:: Path_of_str s]
  | RefPath p => [:: p]
  | RefDict name path | RefObject name path =>
      match py_or name path with
      | Some n => if truthy n then [:: Path_of_str n] else [::]
      | None => [::]
      end
  end.

Definition _resolve_file_paths (files : files_arg) : seq Path :=
  match files with
  | FilesNone => [::]
  | FilesSingle (RefStr s) => if truthy s then [:: Path_of_str s] else [::]
  | FilesSingle item => resolve_item item
  | FilesList items => flatten [seq resolve_item item | item <- items]
  end.

Definition warning_entry (path : Path) : string :=
  String.append "[warning] File not found: " (Path_name path).

Definition error_entry (path : Path) (exc : exn) : string :=
  String.append "[error] Failed to process "
    (String.append (Path_name path) (String.append ": " (str_of_exn exc))).

Definition header (path : Path) : string :=
  String.append "# " (String.append (Path_name path) newline).

(** ** [ocr.py] *)

Definition _ensure_reader (languages : option (seq string)) : M Reader :=
  fun s =>
    match _reader s with
    | Some reader => (Ok reader, s)
    | None =>
        let langs :=
          match languages with
          | Some (l :: ls) => l :: ls
          | _ => _DEFAULT_LANGUAGES
          end in
        let reader :=
          MkReader (constructed s) langs false _MODEL_ROOT _MODEL_ROOT true in
        (Ok reader, MkSession (Some reader) (constructed s).+1)
    end.

Definition extract_text_from_image (image : Image)
    (languages : option (seq string)) : M string :=
  do! reader <- _ensure_reader languages in
  do! results <- lift (readtext reader image) in
  lift (_format_results results).

(** The body of the loop over the pages. *)
Definition page_text (page : Page) (languages : option (seq string)) : M string :=
  do! img <- lift (render page) in
  extract_text_from_image img languages.

Fixpoint pdf_loop (pages : seq Page) (languages : option (seq string))
    (texts : seq string) : M (seq string) :=
  match pages with
  | [::] => ret texts
  | page :: rest =>
      do! text <- page_text page languages in
      pdf_loop rest languages (rcons texts text)
  end.

Definition extract_text_from_pdf (pdf_path : Path)
    (languages : option (seq string)) : M string :=
  do! document <- lift (fitz_open pdf_path) in
  do! texts <- pdf_loop document languages [::] in
  ret (join blank_line [seq text <- texts | truthy text]).

Definition unsupported (suffix : string) : exn :=
  ValueError (String.append "Unsupported file type: " suffix).

Definition extract_text_from_path (path : Path)
    (languages : option (seq string)) : M string :=
  let suffix := lower (Path_suffix path) in
  if suffix == ".pdf"%string then extract_text_from_pdf path languages
  else if suffix \in _SUPPORTED_IMAGE_EXTENSIONS then
    do! image <- lift (Image_open path) in
    extract_text_from_image image languages
  else raise (unsupported suffix).

(** ** [main.py]: the Batch Driver *)

(** The loop of [run_ocr_on_files]; [many] is [len(file_paths) > 1].
    [path.exists()] is called outside the [try], so what it raises leaves
    the loop; what [extract_text_from_path] raises is caught. *)
Fixpoint batch_loop (many : bool) (languages_arg : option (seq string))
    (file_paths : seq Path) (outputs : seq string) : M (seq string) :=
  match file_paths with
  | [::] => ret outputs
  | path :: rest =>
      do! there <- lift (path_exists path) in
      if ~~ there then
        batch_loop many languages_arg rest (rcons outputs (warning_entry path))
      else fun s =>
        match extract_text_from_path path languages_arg s with
        | (Raise exc, s') =>
            batch_loop many languages_arg rest
              (rcons outputs (error_entry path exc)) s'
        | (Ok text, s') =>
            if many then
              batch_loop many languages_arg rest
                (rcons outputs (String.append (header path) (or_placeholder text))) s'
            else
              batch_loop many languages_arg rest
                (rcons outputs (or_placeholder text)) s'
        end
  end.

Definition run_ocr_on_files (files : files_arg) (languages : seq string)
    : M string :=
  let file_paths := _resolve_file_paths files in
  if file_paths is [::] then ret EmptyString
  else
    let languages_arg := languages_arg_of languages in
    do! outputs <-
      batch_loop (1 < size file_paths)%N languages_arg file_paths [::] in
    ret (join blank_line outputs).

(** ** Devices for the statements *)


(** The Page Texts of [pages], in page order: each page is rendered and
    read in the session the page before it left. *)
Inductive pages_yield (languages : option (seq string))
    : seq Page -> session -> seq string -> session -> Prop :=
  | yield_nil (s : session) : pages_yield languages [::] s [::] s
  | yield_cons (page : Page) (rest : seq Page) (s s1 s' : session)
      (text : string) (texts : seq string) :
      page_text page languages s = (Ok text, s1) ->
      pages_yield languages rest s1 texts s' ->
      pages_yield languages (page :: rest) s (text :: texts) s'.

(** The languages a new reader is bound to. *)
Definition bound_languages (languages : option (seq string)) : seq string :=
  if languages is Some (l :: ls) then l :: ls else [:: "en"%string].

(** The reader an acquisition returns and the session it leaves. *)
Definition reader_of (languages : option (seq string)) (s : session) : Reader :=
  if _reader s is Some reader then reader
  else MkReader (constructed s) (bound_languages languages) false
         _MODEL_ROOT _MODEL_ROOT true.

Definition session_after (languages : option (seq string)) (s : session) : session :=
  if _reader s is Some reader then s
  else MkSession (Some (reader_of languages s)) (constructed s).+1.

(** The extension is one the Document Walker dispatches on. *)
Definition supported (path : Path) : bool :=
  let suffix := lower (Path_suffix path) in
  (suffix == ".pdf"%string) || (suffix \in _SUPPORTED_IMAGE_EXTENSIONS).




(** The file that cannot be opened. *)
Definition cannot_open (path : Path) (e : exn) : Prop :=
  if lower (Path_suffix path) == ".pdf"%string then fitz_open path = Raise e
  else Image_open path = Raise e.

(** [path.exists()] returns, [True] or [False]. *)
Definition exists_answers (path : Path) : bool :=
  if path_exists path is Ok _ then true else false.

(** What one pass of the loop appends to [outputs], and the session it
    leaves. *)
Definition file_entry (many : bool) (languages_arg : option (seq string))
    (path : Path) : M string :=
  do! there <- lift (path_exists path) in
  if ~~ there then ret (warning_entry path)
  else fun s =>
    match extract_text_from_path path languages_arg s with
    | (Raise exc, s') => (Ok (error_entry path exc), s')
    | (Ok text, s') =>
        (Ok (if many then String.append (header path) (or_placeholder text)
             else or_placeholder text), s')
    end.

Fixpoint entries (many : bool) (languages_arg : option (seq string))
    (paths : seq Path) : M (seq string) :=
  match paths with
  | [::] => ret [::]
  | path :: rest =>
      do! entry <- file_entry many languages_arg path in
      do! others <- entries many languages_arg rest in
      ret (entry :: others)
  end.

(** The session in which the file at position [i] is processed. *)
Definition session_before (many : bool) (languages_arg : option (seq string))
    (paths : seq Path) (i : nat) (s : session) : session :=
  (batch_loop many languages_arg (take i paths) [::] s).2.

(** The session a computation leaves is the one it started in, or that one
    with a reader constructed for [languages]. *)
Definition same_or_constructed (languages : option (seq string))
    (s s' : session) : Prop :=
  s' = s \/ s' = session_after languages s.

(** ** The session after construction *)

Lemma ensure_readerE (languages : option (seq string)) (s : session) :
  _ensure_reader languages s = (Ok (reader_of languages s), session_after languages s).
Proof.
rewrite /_ensure_reader /session_after /reader_of /bound_languages.
by case: (_reader s) => //; case: languages => [[|l ls]|].
Qed.

Lemma ensure_reader_cached (languages : option (seq string)) (s : session)
    (reader : Reader) :
  _reader s = Some reader -> _ensure_reader languages s = (Ok reader, s).
Proof. by rewrite /_ensure_reader => ->. Qed.

Lemma session_after_reader (languages : option (seq string)) (s : session) :
  _reader (session_after languages s) = Some (reader_of languages s).
Proof. by rewrite /session_after /reader_of; case E: (_reader s). Qed.

Lemma after_cached (languages : option (seq string)) (s : session)
    (reader : Reader) :
  _reader s = Some reader -> session_after languages s = s.
Proof. by rewrite /session_after => ->. Qed.


Lemma image_keeps_session (image : Image) (languages : option (seq string))
    (s : session) (reader : Reader) :
  _reader s = Some reader ->
  (extract_text_from_image image languages s).2 = s.
Proof.
move=> cached; rewrite /extract_text_from_image /bind.
rewrite (ensure_reader_cached _ cached) /lift.
by case: (readtext reader image).
Qed.

Lemma page_keeps_session (page : Page) (languages : option (seq string))
    (s : session) (reader : Reader) :
  _reader s = Some reader -> (page_text page languages s).2 = s.
Proof.
move=> cached; rewrite /page_text /bind /lift.
case: (render page) => [img|e] //.
have := image_keeps_session img languages cached.
by case: (extract_text_from_image img languages s).
Qed.

Lemma pdf_loop_keeps_session (pages : seq Page) (languages : option (seq string))
    (s : session) (reader : Reader) :
  _reader s = Some reader ->
  forall texts, (pdf_loop pages languages texts s).2 = s.
Proof.
move=> cached; elim: pages => [|page rest IH] texts //=.
rewrite /bind; have := page_keeps_session page languages cached.
by case: (page_text page languages s) => [[text|e] s1] /= -> //.
Qed.

Lemma pdf_keeps_session (path : Path) (languages : option (seq string))
    (s : session) (reader : Reader) :
  _reader s = Some reader -> (extract_text_from_pdf path languages s).2 = s.
Proof.
move=> cached; rewrite /extract_text_from_pdf /bind /lift.
case: (fitz_open path) => [pages|e] //.
have := pdf_loop_keeps_session pages languages cached [::].
by case: (pdf_loop pages languages [::] s) => [[texts|e] s1] /= ->.
Qed.

Lemma path_keeps_session (path : Path) (languages : option (seq string))
    (s : session) (reader : Reader) :
  _reader s = Some reader -> (extract_text_from_path path languages s).2 = s.
Proof.
move=> cached; rewrite /extract_text_from_path.
case: ifP => _; first exact: pdf_keeps_session cached.
case: ifP => _ //; rewrite /bind /lift.
case: (Image_open path) => [image|e] //.
have := image_keeps_session image languages cached.
by case: (extract_text_from_image image languages s).
Qed.

Lemma batch_loop_keeps_session (many : bool) (languages : option (seq string))
    (paths : seq Path) (s : session) (reader : Reader) :
  _reader s = Some reader ->
  forall outputs, (batch_loop many languages paths outputs s).2 = s.
Proof.
move=> cached; elim: paths => [|path rest IH] outputs //=.
rewrite /bind /lift; case: (path_exists path) => [[]|e] //=.
have := path_keeps_session path languages cached.
case: (extract_text_from_path path languages s) => [[text|e] s1] /= -> //.
by case: ifP.
Qed.



(** ** Documents of several pages *)

Lemma pdf_loop_yield (languages : option (seq string)) (pages : seq Page)
    (s s' : session) (texts : seq string) :
  pages_yield languages pages s texts s' ->
  forall acc, pdf_loop pages languages acc s = (Ok (acc ++ texts), s').
Proof.
elim=> [s1|page rest s1 s2 s3 text texts' page_ok _ IH] acc /=.
  by rewrite cats0.
by rewrite /bind page_ok IH cat_rcons.
Qed.

Lemma pages_yield_size (languages : option (seq string)) (pages : seq Page)
    (s s' : session) (texts : seq string) :
  pages_yield languages pages s texts s' -> size texts = size pages.
Proof. by elim=> [|page rest s1 s2 s3 text texts' _ _ /= ->]. Qed.

(** C6: the Document Text of a document of several pages is the Page
    Texts that are not empty, in page order, joined by a blank line; a page
    whose text is empty adds nothing, not even a separator. *)
Theorem pdf_joins_nonempty_page_texts (path : Path)
    (languages : option (seq string)) (pages : seq Page) (s s' : session)
    (texts : seq string) :
  fitz_open path = Ok pages ->
  pages_yield languages pages s texts s' ->
  let document_text := join blank_line [seq text <- texts | truthy text] in
  [/\ extract_text_from_pdf path languages s = (Ok document_text, s'),
      size texts = size pages,
      lower (Path_suffix path) = ".pdf"%string ->
      extract_text_from_path path languages s = (Ok document_text, s')
    & forall before after : seq string,
        texts = before ++ EmptyString :: after ->
        document_text =
        join blank_line [seq text <- before ++ after | text != EmptyString]].
Proof.
move=> opened yields document_text.
have pdf : extract_text_from_pdf path languages s = (Ok document_text, s').
  by rewrite /extract_text_from_pdf /bind /lift opened (pdf_loop_yield yields).
split=> //; first exact: pages_yield_size yields.
  by rewrite /extract_text_from_path => ->; rewrite eqxx.
by move=> before after E; rewrite /document_text E !filter_cat.
Qed.

Lemma pdf_loop_fails (languages : option (seq string)) (before : seq Page)
    (s s1 : session) (texts : seq string) :
  pages_yield languages before s texts s1 ->
  forall (page : Page) (rest : seq Page) (e : exn) (s2 : session)
    (acc : seq string),
  page_text page languages s1 = (Raise e, s2) ->
  pdf_loop (before ++ page :: rest) languages acc s = (Raise e, s2).
Proof.
elim=> [s0|p ps s0 s3 s4 text texts' p_ok _ IH] page rest e s2 acc failed /=.
  by rewrite /bind failed.
by rewrite /bind p_ok; exact: IH failed.
Qed.

(** X14: when a page cannot be rendered or read, the whole document fails with
    that page's error: the texts of the pages before it are dropped and
    the pages after it are not processed. *)
Theorem pdf_fails_with_first_failing_page (path : Path)
    (languages : option (seq string)) (before after_it : seq Page)
    (page : Page) (s s1 s2 : session) (texts : seq string) (e : exn) :
  fitz_open path = Ok (before ++ page :: after_it) ->
  pages_yield languages before s texts s1 ->
  page_text page languages s1 = (Raise e, s2) ->
  extract_text_from_pdf path languages s = (Raise e, s2).
Proof.
move=> opened read failed.
by rewrite /extract_text_from_pdf /bind /lift opened (pdf_loop_fails read _ _ failed).
Qed.

(** X15: the Document Text is empty exactly when every Page Text is. *)
Theorem document_text_empty_iff_pages_empty (path : Path)
    (languages : option (seq string)) (pages : seq Page) (s s' : session)
    (texts : seq string) :
  fitz_open path = Ok pages ->
  pages_yield languages pages s texts s' ->
  exists document_text : string,
    extract_text_from_pdf path languages s = (Ok document_text, s') /\
    (document_text == EmptyString) = all (fun text => text == EmptyString) texts.
Proof.
move=> opened read.
exists (join blank_line [seq text <- texts | truthy text]); split.
  by rewrite /extract_text_from_pdf /bind /lift opened (pdf_loop_yield read).
rewrite join_empty ?filter_all // -[_ == [::]]negbK -has_filter -all_predC.
by apply: eq_all => text /=; rewrite /truthy negbK.
Qed.

(** ** Dispatch on the extension *)




Lemma unsupported_raises (path : Path) (languages : option (seq string))
    (s : session) :
  ~~ supported path ->
  extract_text_from_path path languages s =
  (Raise (unsupported (lower (Path_suffix path))), s).
Proof.
by rewrite /supported /extract_text_from_path negb_or => /andP [/negbTE -> /negbTE ->].
Qed.


(** ** The loop of the Batch Driver, one file at a time *)

(** The outputs so far, extended by the entries of the remaining files. *)
Definition extended (outputs : seq string) (r : result (seq string))
    : result (seq string) :=
  if r is Ok es then Ok (outputs ++ es) else r.

Lemma batch_loop_entries (many : bool) (languages_arg : option (seq string))
    (paths : seq Path) :
  forall (outputs : seq string) (s : session),
  batch_loop many languages_arg paths outputs s =
  (extended outputs (entries many languages_arg paths s).1,
   (entries many languages_arg paths s).2).
Proof.
elim: paths => [|path rest IH] outputs s /=; first by rewrite /ret /= cats0.
rewrite /file_entry /bind /lift; case: (path_exists path) => [[]|e] //=.
  case: (extract_text_from_path path languages_arg s) => [[text|exc] s1].
    by case: many IH => IH; rewrite IH; case: (entries _ _ rest s1) => [[es|e] s'] //=;
       rewrite cat_rcons.
  by rewrite IH; case: (entries _ _ rest s1) => [[es|e] s'] //=; rewrite cat_rcons.
by rewrite IH /ret; case: (entries _ _ rest s) => [[es|e] s'] //=; rewrite cat_rcons.
Qed.

Lemma run_ocr_entries (files : files_arg) (languages : seq string) (s : session) :
  let paths := _resolve_file_paths files in
  (run_ocr_on_files files languages s).1 =
  if (entries (1 < size paths)%N (languages_arg_of languages) paths s).1
    is Ok es then Ok (join blank_line es)
  else (run_ocr_on_files files languages s).1.
Proof.
rewrite /run_ocr_on_files.
case: (_resolve_file_paths files) => [|path paths] //.
rewrite /bind batch_loop_entries.
by case: (entries _ _ _ _) => [[es|e] s'].
Qed.

Lemma file_entry_answers (many : bool) (languages_arg : option (seq string))
    (path : Path) (s : session) :
  exists_answers path ->
  exists entry s', file_entry many languages_arg path s = (Ok entry, s').
Proof.
rewrite /exists_answers /file_entry /bind /lift.
case: (path_exists path) => [[]|e] //= _; last by eexists; eexists.
by case: (extract_text_from_path path languages_arg s) => [[text|exc] s1];
   eexists; eexists.
Qed.

Lemma entries_answer (many : bool) (languages_arg : option (seq string))
    (paths : seq Path) :
  all exists_answers paths ->
  forall s, exists es s',
    entries many languages_arg paths s = (Ok es, s') /\ size es = size paths.
Proof.
elim: paths => [|path rest IH] /=; first by move=> _ s; exists [::], s.
case/andP=> /file_entry_answers answers /IH {}IH s.
have [entry [s1 E]] := answers many languages_arg s.
have [es [s' [Es sz]]] := IH s1.
by exists (entry :: es), s'; rewrite /bind E Es /= sz.
Qed.

Lemma session_beforeE (many : bool) (languages_arg : option (seq string))
    (paths : seq Path) (i : nat) (s : session) :
  session_before many languages_arg paths i s =
  (entries many languages_arg (take i paths) s).2.
Proof. by rewrite /session_before batch_loop_entries. Qed.

Lemma nth_entries (many : bool) (languages_arg : option (seq string))
    (paths : seq Path) (p0 : Path) :
  forall (i : nat) (s s' : session) (es : seq string),
  entries many languages_arg paths s = (Ok es, s') ->
  (i < size paths)%N ->
  (file_entry many languages_arg (nth p0 paths i)
     (session_before many languages_arg paths i s)).1 =
  Ok (nth EmptyString es i).
Proof.
move=> i s s' es; rewrite session_beforeE.
elim: paths i s s' es => [|path rest IH] [|i] s s' es //=; rewrite /bind.
  case: (file_entry _ _ path s) => [[entry|e] s1] //.
  by case: (entries _ _ rest s1) => [[others|e] s2] //= [<- _].
case E: (file_entry _ _ path s) => [[entry|e] s1] //.
case Es: (entries _ _ rest s1) => [[others|e] s2] //= [<- _]; rewrite ltnS => i_lt.
have := IH i s1 s2 others Es i_lt.
by case: (entries _ _ (take i rest) s1) => [[es'|e'] s3].
Qed.

Lemma batch_loop_aborts (many : bool) (languages_arg : option (seq string))
    (before after : seq Path) (path : Path) (e : exn) :
  all exists_answers before ->
  path_exists path = Raise e ->
  forall (outputs : seq string) (s : session),
  exists s', batch_loop many languages_arg (before ++ path :: after) outputs s =
             (Raise e, s').
Proof.
move=> answers failed.
elim: before answers => [|p ps IH] /= => [_|/andP [p_answers /IH {}IH]] outputs s.
  by exists s; rewrite /bind /lift failed.
move: p_answers; rewrite /exists_answers /bind /lift.
case: (path_exists p) => [[]|e'] //= _.
case: (extract_text_from_path p languages_arg s) => [[text|exc] s1]; last exact: IH.
by case: many IH => IH; exact: IH.
Qed.

Lemma resolve_list_cat (a b : seq file_ref) :
  _resolve_file_paths (FilesList (a ++ b)) =
  _resolve_file_paths (FilesList a) ++ _resolve_file_paths (FilesList b).
Proof. by rewrite /= map_cat flatten_cat. Qed.

Lemma resolve_list_paths (paths : seq Path) :
  _resolve_file_paths (FilesList [seq RefPath p | p <- paths]) = paths.
Proof. by elim: paths => [|p paths /= ->]. Qed.

Lemma resolve_list_strings (names : seq string) :
  _resolve_file_paths (FilesList [seq RefStr name | name <- names]) =
  [seq Path_of_str name | name <- names].
Proof. by elim: names => [|name names /= ->]. Qed.

Lemma size_resolve_item (item : file_ref) : (size (resolve_item item) <= 1)%N.
Proof.
case: item => [name|p|name path|name path] //=;
  by case: (py_or name path) => [n|] //; case: ifP.
Qed.

(** C9: a failure of [path.exists()] is fatal to the batch.  The call
    stands before the [try] of the loop, so when it raises for one file
    (the operating system refuses to look the file up), the exception
    leaves [run_ocr_on_files]: no string is returned, the entries of the
    files already processed are lost and the files after it are not
    processed. *)
Theorem exists_failure_aborts_batch (before after : seq Path) (path : Path)
    (languages : seq string) (s : session) (e : exn) :
  all exists_answers before ->
  path_exists path = Raise e ->
  exists s' : session,
    run_ocr_on_files
      (FilesList [seq RefPath p | p <- before ++ path :: after]) languages s =
    (Raise e, s').
Proof.
move=> answers failed; rewrite /run_ocr_on_files resolve_list_paths.
set many := (1 < _)%N; set la := languages_arg_of _.
have [s' E] := batch_loop_aborts many la after answers failed [::] s.
have nonempty (a b : M string) :
  (if before ++ path :: after is [::] then a else b) = b by case: (before).
by exists s'; rewrite nonempty /bind E.
Qed.

(** X20: when [path.exists()] answers for every resolved path, the Batch
    Driver returns a string: every resolved path contributes exactly one
    entry, in order, and the result is the entries joined by a blank line.
    The entry of a path with no backing file is the warning; the entry of
    a file on which the Document Walker raises is the error line with the
    exception's message; in both cases the loop goes on with the next
    path. *)
Theorem batch_reports_every_file_looked_up (files : files_arg) (languages : seq string)
    (s : session) :
  let paths := _resolve_file_paths files in
  let languages_arg := languages_arg_of languages in
  let many := (1 < size paths)%N in
  all exists_answers paths ->
  exists outputs : seq string,
    [/\ (run_ocr_on_files files languages s).1 = Ok (join blank_line outputs),
        size outputs = size paths
      & forall i : nat, (i < size paths)%N ->
          let path := nth (Path_of_str EmptyString) paths i in
          let s_i := session_before many languages_arg paths i s in
          let entry := nth EmptyString outputs i in
          [/\ path_exists path = Ok false ->
              entry = String.append "[warning] File not found: " (Path_name path),
              forall (exc : exn) (s' : session),
                path_exists path = Ok true ->
                extract_text_from_path path languages_arg s_i = (Raise exc, s') ->
                entry =
                String.append "[error] Failed to process "
                  (String.append (Path_name path)
                     (String.append ": " (str_of_exn exc)))
            & forall (text : string) (s' : session),
                path_exists path = Ok true ->
                extract_text_from_path path languages_arg s_i = (Ok text, s') ->
                entry =
                if many then
                  String.append
                    (String.append "# " (String.append (Path_name path) newline))
                    (or_placeholder text)
                else or_placeholder text]].
Proof.
move=> paths languages_arg many answers.
have [es [s' [E sz]]] := entries_answer many languages_arg answers s.
exists es; split=> //.
  by rewrite run_ocr_entries -/paths -/many -/languages_arg E.
move=> i i_lt path s_i entry.
have := nth_entries (Path_of_str EmptyString) E i_lt.
rewrite -/path -/s_i -/entry /file_entry /bind /lift => entryE.
split.
- by move=> missing; move: entryE; rewrite missing /= => -[<-].
- by move=> exc s1 there failed; move: entryE; rewrite there /= failed /= => -[<-].
- by move=> text s1 there done; move: entryE; rewrite there /= done /= => -[<-].
Qed.


(** C5: when the engine finds nothing on an image, or only detections
    whose text is whitespace, [_format_results] returns the empty string,
    and so do the page step and the Document Walker on that image: the
    Walker returns the empty string, not the placeholder.  The Batch
    Driver is the one that turns an empty Document Text into
    [(No text detected)], alone for a batch of one file and under the
    header line otherwise. *)
Theorem empty_text_gets_placeholder_in_batch (results : seq (detection N))
    (image : Image) (path : Path) (requested : seq string) (s : session) :
  all (@blank N) results ->
  regions_ok results ->
  lower (Path_suffix path) \in _SUPPORTED_IMAGE_EXTENSIONS ->
  path_exists path = Ok true ->
  Image_open path = Ok image ->
  readtext (reader_of (languages_arg_of requested) s) image = Ok results ->
  let languages := languages_arg_of requested in
  [/\ _format_results results = Ok EmptyString /\
      _format_results ([::] : seq (detection N)) = Ok EmptyString,
      (extract_text_from_image image languages s).1 = Ok EmptyString,
      (extract_text_from_path path languages s).1 = Ok EmptyString,
      (run_ocr_on_files (FilesList [:: RefPath path]) requested s).1 =
      Ok "(No text detected)"%string
    & forall (many : bool) (any : Path) (s0 : session),
        path_exists any = Ok true ->
        (extract_text_from_path any languages s0).1 = Ok EmptyString ->
        (file_entry many languages any s0).1 =
        Ok (if many then
              String.append
                (String.append "# " (String.append (Path_name any) newline))
                "(No text detected)"
            else "(No text detected)"%string)].
Proof.
move=> blanks ok is_image there opened read languages.
have fmt : _format_results results = Ok EmptyString.
  apply: format_results_all_dropped ok.
  by apply: sub_all blanks => d; exact: blank_not_kept.
have img : (extract_text_from_image image languages s).1 = Ok EmptyString.
  by rewrite /extract_text_from_image /bind ensure_readerE /lift read fmt.
have walker : (extract_text_from_path path languages s).1 = Ok EmptyString.
  rewrite /extract_text_from_path is_image.
  have -> : (lower (Path_suffix path) == ".pdf"%string) = false.
    by apply/negP => /eqP E; rewrite E in is_image.
  rewrite /bind /lift opened.
  by move: img; case: (extract_text_from_image image languages s) => [[t|e] s'].
split=> //.
- rewrite /run_ocr_on_files /= /bind /lift there /=.
  by move: walker; rewrite -/languages;
     case: (extract_text_from_path path languages s) => [[t|e] s'] //= [->].
- move=> many any s0 any_there; rewrite /file_entry /bind /lift any_there /=.
  by case: (extract_text_from_path any languages s0) => [[t|e] s'] //= [->];
     case: many.
Qed.

(** ** [_resolve_file_paths] *)

(** X6: a list of references resolves piece by piece, to at most one path per
    reference; strings are all kept, in order, each as the path built from
    it, and paths are kept as they are. *)
Theorem resolve_file_paths_of_lists (a b : seq file_ref)
    (names : seq string) (paths : seq Path) :
  [/\ _resolve_file_paths (FilesList (a ++ b)) =
      _resolve_file_paths (FilesList a) ++ _resolve_file_paths (FilesList b),
      (size (_resolve_file_paths (FilesList a)) <= size a)%N,
      _resolve_file_paths (FilesList [seq RefStr name | name <- names]) =
      [seq Path_of_str name | name <- names]
    & _resolve_file_paths (FilesList [seq RefPath p | p <- paths]) = paths].
Proof.
split; [exact: resolve_list_cat | | exact: resolve_list_strings
       | exact: resolve_list_paths].
elim: a => [|item a IH] //=; rewrite size_cat -add1n.
exact: leq_add (size_resolve_item item) IH.
Qed.

(** ** Failures and the session *)

Lemma image_session (image : Image) (languages : option (seq string))
    (s : session) :
  (extract_text_from_image image languages s).2 = session_after languages s.
Proof.
rewrite /extract_text_from_image /bind ensure_readerE /lift.
by case: (readtext _ image).
Qed.

Lemma page_session (page : Page) (languages : option (seq string))
    (s : session) :
  same_or_constructed languages s (page_text page languages s).2.
Proof.
rewrite /page_text /bind /lift; case: (render page) => [image|e]; last by left.
right; rewrite -(image_session image languages s).
by case: (extract_text_from_image image languages s).
Qed.

Lemma pdf_loop_session (languages : option (seq string)) (pages : seq Page) :
  forall (texts : seq string) (s : session),
  same_or_constructed languages s (pdf_loop pages languages texts s).2.
Proof.
elim: pages => [|page rest IH] texts s /=; first by left.
rewrite /bind; case: (page_session page languages s).
  by case: (page_text page languages s) => [[text|e] s1] /= ->; [exact: IH | left].
case: (page_text page languages s) => [[text|e] s1] /= ->; last by right.
right; apply: pdf_loop_keeps_session (session_after_reader _ _) _.
Qed.

Lemma path_session (path : Path) (languages : option (seq string))
    (s : session) :
  same_or_constructed languages s (extract_text_from_path path languages s).2.
Proof.
rewrite /extract_text_from_path; case: ifP => _.
  rewrite /extract_text_from_pdf /bind /lift.
  case: (fitz_open path) => [pages|e]; last by left.
  have := pdf_loop_session languages pages [::] s.
  by case: (pdf_loop pages languages [::] s) => [[texts|e] s1].
case: ifP => _; last by left.
rewrite /bind /lift; case: (Image_open path) => [image|e]; last by left.
right; rewrite -(image_session image languages s).
by case: (extract_text_from_image image languages s).
Qed.

Lemma batch_loop_session (many : bool) (languages : option (seq string))
    (paths : seq Path) :
  forall (outputs : seq string) (s : session),
  same_or_constructed languages s (batch_loop many languages paths outputs s).2.
Proof.
elim: paths => [|path rest IH] outputs s /=; first by left.
rewrite /bind /lift; case: (path_exists path) => [[]|e] /=; [|exact: IH|by left].
have cached := session_after_reader languages s.
have kept outs : (batch_loop many languages rest outs (session_after languages s)).2 =
                 session_after languages s.
  exact: batch_loop_keeps_session cached _.
case: (path_session path languages s).
  case: (extract_text_from_path path languages s) => [[text|e] s1] /= ->; last exact: IH.
  by case: ifP => _; exact: IH.
case: (extract_text_from_path path languages s) => [[text|e] s1] /= ->; last by right.
by case: ifP => _; right.
Qed.

(** X16: a batch run from a session without a reader constructs at most one
    reader; it is bound to the normalized requested languages, or to
    [["en"]] when none is requested, and never uses the GPU. *)
Theorem batch_constructs_one_reader (files : files_arg)
    (languages : seq string) (s : session) :
  _reader s = None ->
  let s' := (run_ocr_on_files files languages s).2 in
  let codes := _normalize_languages languages in
  s' = s \/
  exists reader : Reader,
    [/\ _reader s' = Some reader,
        constructed s' = (constructed s).+1,
        lang_list reader = (if codes is [::] then [:: "en"%string] else codes)
      & gpu reader = false].
Proof.
move=> empty s' codes.
have : same_or_constructed (languages_arg_of languages) s s'.
  rewrite /s' /run_ocr_on_files.
  case: (_resolve_file_paths files) => [|path paths]; first by left.
  set many := (1 < _)%N.
  have := batch_loop_session many (languages_arg_of languages) (path :: paths) [::] s.
  by rewrite /bind; case: (batch_loop _ _ _ _ _) => [[outputs|e] s1].
case=> [->|->]; [by left | right].
exists (reader_of (languages_arg_of languages) s).
rewrite /session_after /reader_of empty /= /languages_arg_of -/codes.
by split=> //; case: codes.
Qed.

(** X17: a batch in which every path is missing, cannot be looked up, or is
    of an unsupported kind is processed without constructing a reader: the
    session is left as it was. *)
Theorem batch_without_readable_file_keeps_session (files : files_arg)
    (languages : seq string) (s : session) :
  all (fun path => (path_exists path != Ok true) || ~~ supported path)
    (_resolve_file_paths files) ->
  (run_ocr_on_files files languages s).2 = s.
Proof.
rewrite /run_ocr_on_files.
case: (_resolve_file_paths files) => [|path paths] //.
set many := (1 < _)%N; set la := languages_arg_of _.
move: (path :: paths) => all_paths unreadable.
suff: forall outputs, (batch_loop many la all_paths outputs s).2 = s.
  by move/(_ [::]); rewrite /bind; case: (batch_loop _ _ _ _ _) => [[outputs|e] s1].
elim: all_paths unreadable => [|p ps IH] //= /andP [p_bad /IH {}IH] outputs.
move: p_bad; rewrite /bind /lift; case: (path_exists p) => [[]|e] //= bad.
by rewrite (unsupported_raises _ _ bad).
Qed.

(** X18: an existing file of a supported kind that the library cannot open is
    reported with the library's message, and no reader is constructed
    for it. *)
Theorem unopenable_file_is_reported (path : Path) (languages : seq string)
    (s : session) (e : exn) :
  path_exists path = Ok true -> supported path -> cannot_open path e ->
  run_ocr_on_files (FilesList [:: RefPath path]) languages s =
  (Ok (String.append "[error] Failed to process "
         (String.append (Path_name path) (String.append ": " (str_of_exn e)))),
   s).
Proof.
move=> there; rewrite /supported /cannot_open /run_ocr_on_files /= /bind /lift there /=.
rewrite /extract_text_from_path.
case: ifP => _ /=.
  by move=> _ failed; rewrite /extract_text_from_pdf /bind /lift failed.
by move=> -> failed; rewrite /bind /lift failed.
Qed.

(** X19: when recognition fails on an image file, the file is reported with
    the engine's message, and the reader constructed for it stays in the
    session. *)
Theorem recognition_failure_is_reported (path : Path) (languages : seq string)
    (s : session) (image : Image) (e : exn) :
  path_exists path = Ok true ->
  lower (Path_suffix path) \in _SUPPORTED_IMAGE_EXTENSIONS ->
  Image_open path = Ok image ->
  readtext (reader_of (languages_arg_of languages) s) image = Raise e ->
  run_ocr_on_files (FilesList [:: RefPath path]) languages s =
  (Ok (String.append "[error] Failed to process "
         (String.append (Path_name path) (String.append ": " (str_of_exn e)))),
   session_after (languages_arg_of languages) s).
Proof.
move=> there is_image opened failed.
rewrite /run_ocr_on_files /= /bind /lift there /= /extract_text_from_path is_image.
have -> : (lower (Path_suffix path) == ".pdf"%string) = false.
  by apply/negP => /eqP E; rewrite E in is_image.
by rewrite /bind /lift opened /extract_text_from_image /bind ensure_readerE
           /lift failed.
Qed.

End Walker.

Arguments RefStr {Path} s.
Arguments RefDict {Path} name path.
Arguments RefObject {Path} name path.
Arguments FilesNone {Path}.

(** * A small concrete world

    An image or a page is represented by the detections the engine reads
    on it, and a path by the string it is written as. *)

Local Open Scope string_scope.

Definition demo_root : string := "/app/models/easyocr".

Definition demo_readtext (reader : Reader)
    (image : seq (detection exact_numbers))
    : result (seq (detection exact_numbers)) := Ok image.

Definition page_A : seq (detection exact_numbers) :=
  [:: (box 0 0 10 10, PyStr "A", q 1)].

Definition page_blank : seq (detection exact_numbers) :=
  [:: (box 0 0 10 10, PyStr "  ", q 1)].

(** A file name of 300 characters, more than the file system accepts. *)
Definition long_name : string :=
  String.append (String.concat EmptyString (nseq 300 "x")) ".png".

(** The paths of the examples, each with its [name] and its [suffix] (a
    string that is not listed stands for a file without extension). *)
Definition demo_files : seq (string * (string * string)) :=
  [:: ("scan.png", ("scan.png", ".png"));
      ("blank.png", ("blank.png", ".png"));
      ("x.png", ("x.png", ".png"));
      ("missing.png", ("missing.png", ".png"));
      (long_name, (long_name, ".png"));
      ("two.pdf", ("two.pdf", ".pdf"));
      ("broken.pdf", ("broken.pdf", ".pdf"));
      ("x.docx", ("x.docx", ".docx"))].

Definition demo_file (p : string) : string * string :=
  if [seq f.2 | f <- demo_files & f.1 == p] is f :: _ then f
  else (p, EmptyString).

Definition demo_Path_of_str (s : string) : string := s.

Definition demo_name (p : string) : string := (demo_file p).1.

Definition demo_suffix (p : string) : string := (demo_file p).2.

(** [str(exc)] for the [OSError] that [os.stat] raises on [long_name]. *)
Definition name_too_long : string :=
  String.append "[Errno 36] File name too long: '" (String.append long_name "'").

(** Looking up [long_name] raises; [missing.png] is not there; the other
    files are. *)
Definition demo_exists (p : string) : result bool :=
  if p == "missing.png" then Ok false
  else if p == long_name then Raise (OSError name_too_long)
  else Ok true.

Definition demo_Image_open (p : string)
    : result (seq (detection exact_numbers)) :=
  if p == "blank.png" then Ok page_blank
  else if p == "scan.png" then Ok example_page
  else Raise (LibraryError "cannot identify image file").

Definition demo_fitz_open (p : string)
    : result (seq (seq (detection exact_numbers))) :=
  if p == "two.pdf" then Ok [:: page_A; page_blank]
  else if p == "broken.pdf" then Ok [:: page_A; [:: no_region]; page_A]
  else Raise (LibraryError "cannot open file").

Definition demo_render (page : seq (detection exact_numbers))
    : result (seq (detection exact_numbers)) := Ok page.

Definition failing_readtext (reader : Reader)
    (image : seq (detection exact_numbers))
    : result (seq (detection exact_numbers)) :=
  Raise (LibraryError "out of memory").

Definition demo_pdf (path : string) (languages : option (seq string)) : M string :=
  extract_text_from_pdf demo_root demo_readtext demo_fitz_open demo_render
    path languages.

Definition demo_path (path : string) (languages : option (seq string)) : M string :=
  extract_text_from_path demo_suffix demo_root demo_readtext demo_Image_open
    demo_fitz_open demo_render path languages.

Definition demo_run (files : files_arg string) (languages : seq string)
    : M string :=
  run_ocr_on_files demo_Path_of_str demo_name demo_suffix demo_exists demo_root
    demo_readtext demo_Image_open demo_fitz_open demo_render files languages.

Example normalize_languages_example :
  _normalize_languages [:: "FR, en"; "de,,en "] = [:: "de"; "en"; "fr"].
Proof. by vm_compute. Qed.

Example unsupported_docx :
  (demo_path "x.docx" None fresh_session).1 =
  Raise (ValueError "Unsupported file type: .docx") /\
  (demo_run (FilesList [:: RefPath "x.docx"]) [::] fresh_session).1 =
  Ok "[error] Failed to process x.docx: Unsupported file type: .docx".
Proof. by split; vm_compute. Qed.

Example batch_with_missing_file :
  (demo_run (FilesList [:: RefStr "missing.png"; RefStr "scan.png"])
     [:: "en"] fresh_session).1 =
  Ok (join blank_line
        [:: "[warning] File not found: missing.png";
            join newline [:: "# scan.png"; "Hello World"; "Second"]]).
Proof. by vm_compute. Qed.


Lemma pdf_joins_nonempty_page_texts_witness :
  (demo_path "two.pdf" None fresh_session).1 = Ok "A".
Proof.
have opened : demo_fitz_open "two.pdf" = Ok [:: page_A; page_blank] by [].
pose s1 := session_after demo_root None fresh_session.
have yields : pages_yield demo_root demo_readtext demo_render None
                [:: page_A; page_blank] fresh_session [:: "A"; EmptyString] s1.
  apply: (@yield_cons _ _ _ _ _ _ _ _ _ _ s1); first by vm_compute.
  apply: (@yield_cons _ _ _ _ _ _ _ _ _ _ s1); first by vm_compute.
  exact: yield_nil.
have [_ _ walker _] :=
  pdf_joins_nonempty_page_texts demo_suffix demo_Image_open opened yields.
by rewrite /demo_path walker.
Defined.

Lemma empty_text_gets_placeholder_in_batch_witness :
  (demo_path "blank.png" None fresh_session).1 = Ok EmptyString /\
  (demo_run (FilesList [:: RefPath "blank.png"]) [::] fresh_session).1 =
  Ok "(No text detected)".
Proof.
have blanks : all (@blank exact_numbers) page_blank by vm_compute.
have ok : regions_ok page_blank by vm_compute.
have is_image : lower (demo_suffix "blank.png") \in _SUPPORTED_IMAGE_EXTENSIONS.
  by vm_compute.
have there : demo_exists "blank.png" = Ok true by vm_compute.
have opened : demo_Image_open "blank.png" = Ok page_blank by [].
have read : demo_readtext
              (reader_of demo_root (languages_arg_of [::]) fresh_session)
              page_blank = Ok page_blank by [].
have [_ _ walker batch _] :=
  @empty_text_gets_placeholder_in_batch _ _ demo_Path_of_str demo_name _ _ _ _
    _ _ _ demo_fitz_open demo_render _ _ _ _ _
    blanks ok is_image there opened read.
by split; [exact: walker | exact: batch].
Defined.


(** C9 at a batch of two files, the second with a name that is too long:
    the run raises, and the text of the first file is lost. *)
Lemma exists_failure_aborts_batch_witness :
  (demo_run (FilesList [:: RefPath "scan.png"]) [::] fresh_session).1 =
  Ok (join newline [:: "Hello World"; "Second"]) /\
  exists s' : session,
    demo_run (FilesList [:: RefPath "scan.png"; RefPath long_name])
      [::] fresh_session =
    (Raise (OSError name_too_long), s').
Proof.
split; first by vm_compute.
have answers : all (exists_answers demo_exists) [:: "scan.png"] by vm_compute.
have failed : demo_exists long_name = Raise (OSError name_too_long).
  by vm_compute.
exact: (@exists_failure_aborts_batch _ _ demo_Path_of_str demo_name demo_suffix
          _ _ _ demo_root demo_readtext demo_Image_open demo_fitz_open
          demo_render _ [::] _ [::] fresh_session _ answers failed).
Defined.

Lemma batch_reports_every_file_looked_up_witness :
  exists outputs : seq string,
    (demo_run (FilesList [:: RefStr "missing.png"; RefStr "x.docx"]) [::]
       fresh_session).1 = Ok (join blank_line outputs) /\
    size outputs = 2.
Proof.
have answers :
  all (exists_answers demo_exists)
    (_resolve_file_paths demo_Path_of_str
       (FilesList [:: RefStr "missing.png"; RefStr "x.docx"])) by vm_compute.
have [outputs [E sz _]] :=
  @batch_reports_every_file_looked_up _ _ _ demo_name demo_suffix _ _ _ demo_root
    demo_readtext demo_Image_open demo_fitz_open demo_render _ [::]
    fresh_session answers.
by exists outputs; split; [exact: E | exact: sz].
Defined.

Lemma pdf_fails_with_first_failing_page_witness :
  (demo_pdf "broken.pdf" None fresh_session).1 =
  Raise (ValueError "max() arg is an empty sequence").
Proof.
pose s1 := session_after demo_root None fresh_session.
have opened : demo_fitz_open "broken.pdf" =
              Ok ([:: page_A] ++ [:: no_region] :: [:: page_A])%SEQ by [].
have read : pages_yield demo_root demo_readtext demo_render None
              [:: page_A] fresh_session [:: "A"] s1.
  by apply: (@yield_cons _ _ _ _ _ _ _ _ _ _ s1); [vm_compute | exact: yield_nil].
have failed : page_text demo_root demo_readtext demo_render [:: no_region]
                None s1 =
              (Raise (ValueError "max() arg is an empty sequence"), s1).
  by vm_compute.
by rewrite /demo_pdf (pdf_fails_with_first_failing_page opened read failed).
Defined.

Lemma document_text_empty_iff_pages_empty_witness :
  exists document_text : string,
    (demo_pdf "two.pdf" None fresh_session).1 = Ok document_text /\
    (document_text == EmptyString) = false.
Proof.
pose s1 := session_after demo_root None fresh_session.
have opened : demo_fitz_open "two.pdf" = Ok [:: page_A; page_blank] by [].
have read : pages_yield demo_root demo_readtext demo_render None
              [:: page_A; page_blank] fresh_session [:: "A"; EmptyString] s1.
  apply: (@yield_cons _ _ _ _ _ _ _ _ _ _ s1); first by vm_compute.
  apply: (@yield_cons _ _ _ _ _ _ _ _ _ _ s1); first by vm_compute.
  exact: yield_nil.
have [text [E empty]] := document_text_empty_iff_pages_empty opened read.
by exists text; split; [rewrite /demo_pdf E | rewrite empty].
Defined.

Lemma batch_constructs_one_reader_witness :
  _reader fresh_session = None /\
  exists reader : Reader,
    _reader (demo_run (FilesList [:: RefPath "scan.png"]) [:: "FR, de"]
               fresh_session).2 = Some reader /\
    lang_list reader = [:: "de"; "fr"].
Proof.
split=> //.
have := @batch_constructs_one_reader _ _ demo_Path_of_str demo_name demo_suffix
          demo_exists _ _ demo_root demo_readtext
          demo_Image_open demo_fitz_open demo_render
          (FilesList [:: RefPath "scan.png"]) [:: "FR, de"] fresh_session
          (erefl _).
case=> [unchanged|[reader [stored _ langs _]]].
  exists (reader_of demo_root (Some [:: "de"; "fr"]) fresh_session).
  split; vm_compute; reflexivity.
exists reader; split; first exact: stored.
rewrite langs; vm_compute; reflexivity.
Defined.

Lemma batch_without_readable_file_keeps_session_witness :
  (demo_run (FilesList [:: RefPath "missing.png"; RefPath "x.docx"]) [:: "en"]
     fresh_session).2 = fresh_session.
Proof.
by apply: batch_without_readable_file_keeps_session; vm_compute.
Defined.

Lemma unopenable_file_is_reported_witness :
  demo_run (FilesList [:: RefPath "x.png"]) [::] fresh_session =
  (Ok "[error] Failed to process x.png: cannot identify image file",
   fresh_session).
Proof.
have there : demo_exists "x.png" = Ok true by vm_compute.
have kind : supported demo_suffix "x.png" by vm_compute.
have failed : cannot_open demo_suffix demo_Image_open demo_fitz_open "x.png"
                (LibraryError "cannot identify image file") by vm_compute.
rewrite /demo_run.
by rewrite (@unopenable_file_is_reported _ _ demo_Path_of_str demo_name _ _ _ _
              demo_root demo_readtext _ _ demo_render _ [::] fresh_session _
              there kind failed).
Defined.

Lemma recognition_failure_is_reported_witness :
  (run_ocr_on_files demo_Path_of_str demo_name demo_suffix demo_exists
     demo_root failing_readtext demo_Image_open demo_fitz_open
     demo_render (FilesList [:: RefPath "scan.png"]) [::]
     fresh_session).1 =
  Ok "[error] Failed to process scan.png: out of memory".
Proof.
have there : demo_exists "scan.png" = Ok true by vm_compute.
have is_image : lower (demo_suffix "scan.png") \in _SUPPORTED_IMAGE_EXTENSIONS.
  by vm_compute.
have opened : demo_Image_open "scan.png" = Ok example_page by [].
have failed : failing_readtext
                (reader_of demo_root (languages_arg_of [::]) fresh_session)
                example_page = Raise (LibraryError "out of memory") by [].
by rewrite (@recognition_failure_is_reported _ _ demo_Path_of_str demo_name _ _
              _ _ _ _ _ demo_fitz_open demo_render _ _ _ _ _
              there is_image opened failed).
Defined.

Local Close Scope string_scope.

(** * The language list *)

(** ** Facts about [strip], [lower] and the order of strings *)

Lemma isspace_lower (c : ascii) : isspace (lower_ascii c) = isspace c.
Proof. by case: c => [[] [] [] [] [] [] [] []]. Qed.

Lemma lower_ascii_idem (c : ascii) : lower_ascii (lower_ascii c) = lower_ascii c.
Proof. by case: c => [[] [] [] [] [] [] [] []]. Qed.

Lemma comma_lower (c : ascii) : is_char "," (lower_ascii c) = is_char "," c.
Proof. by case: c => [[] [] [] [] [] [] [] []]. Qed.

Lemma lower_idem (s : string) : lower (lower s) = lower s.
Proof. by elim: s => [|c s IH] //=; rewrite lower_ascii_idem IH. Qed.

Lemma lower_empty (s : string) : (lower s == EmptyString) = (s == EmptyString).
Proof. by case: s. Qed.

(** A string that does not start with whitespace. *)
Definition lstripped (s : string) : bool :=
  if s is String c _ then ~~ isspace c else true.

Lemma lstrip_lstripped (s : string) : lstripped (lstrip s).
Proof. by elim: s => [|c s IH] //=; case: ifP => [_|/= ->]. Qed.

Lemma lstrip_id (s : string) : lstripped s -> lstrip s = s.
Proof. by case: s => [|c s] //= /negbTE ->. Qed.

Lemma rstrip_lstripped (s : string) : lstripped s -> lstripped (rstrip s).
Proof. by case: s => [|c s] //= not_space; rewrite (negbTE not_space). Qed.

Lemma rstrip_idem (s : string) : rstrip (rstrip s) = rstrip s.
Proof.
elim: s => [|c s IH] //=.
by case: ifP => //= E; rewrite IH E.
Qed.

Lemma strip_idem (s : string) : strip (strip s) = strip s.
Proof.
rewrite /strip (lstrip_id (rstrip_lstripped (lstrip_lstripped s))).
exact: rstrip_idem.
Qed.

Lemma lstrip_lower (s : string) : lstrip (lower s) = lower (lstrip s).
Proof. by elim: s => [|c s IH] //=; rewrite isspace_lower; case: ifP. Qed.

Lemma rstrip_lower (s : string) : rstrip (lower s) = lower (rstrip s).
Proof.
elim: s => [|c s IH] //=.
by rewrite isspace_lower IH lower_empty; case: ifP.
Qed.

Lemma strip_lower (s : string) : strip (lower s) = lower (strip s).
Proof. by rewrite /strip lstrip_lower rstrip_lower. Qed.

Fixpoint has_comma (s : string) : bool :=
  if s is String c s' then is_char "," c || has_comma s' else false.

Lemma has_comma_lower (s : string) : has_comma (lower s) = has_comma s.
Proof. by elim: s => [|c s IH] //=; rewrite comma_lower IH. Qed.

Lemma has_comma_lstrip (s : string) : has_comma (lstrip s) -> has_comma s.
Proof.
elim: s => [|c s IH] //=; case: ifP => _ //.
by move/IH => ->; rewrite orbT.
Qed.

Lemma has_comma_rstrip (s : string) : has_comma (rstrip s) -> has_comma s.
Proof.
elim: s => [|c s IH] //=; case: ifP => _ //=.
by case/orP => [->|/IH ->] //; rewrite orbT.
Qed.

Lemma has_comma_strip (s : string) : has_comma (strip s) -> has_comma s.
Proof. by move/has_comma_rstrip/has_comma_lstrip. Qed.

Lemma split_commas_nonempty (s : string) : split_commas s != [::].
Proof. by elim: s => [|c s IH] //=; case: ifP. Qed.

Lemma split_commas_no_comma (s : string) :
  ~~ has_comma s -> split_commas s = [:: s].
Proof.
elim: s => [|c s IH] //=; rewrite negb_or => /andP [/negbTE -> /IH ->].
by [].
Qed.

Lemma split_commas_tokens (s : string) :
  all (fun token => ~~ has_comma token) (split_commas s).
Proof.
elim: s => [|c s IH] //=; case: ifP => [_|c_not] /=; first by rewrite IH.
move: IH (split_commas_nonempty s).
by case: (split_commas s) => [|token tokens] //= /andP [tok ->]; rewrite c_not tok.
Qed.

Lemma split_commas_cat (a b : string) :
  split_commas (String.append a (String "," b)) =
  split_commas a ++ split_commas b.
Proof.
elim: a => [|c a IH] //=; rewrite IH.
case: ifP => // _.
by move: (split_commas_nonempty a); case: (split_commas a).
Qed.

Lemma ascii_compare_trans (c : comparison) (a b d : ascii) :
  Ascii.compare a b = c -> Ascii.compare b d = c -> Ascii.compare a d = c.
Proof.
rewrite /Ascii.compare; case: c.
- by move=> /BinNat.N.compare_eq_iff -> /BinNat.N.compare_eq_iff ->;
     exact: BinNat.N.compare_refl.
- move=> /BinNat.N.compare_lt_iff ab /BinNat.N.compare_lt_iff bd.
  exact/BinNat.N.compare_lt_iff/(BinNat.N.lt_trans _ _ _ ab bd).
- move=> /BinNat.N.compare_gt_iff ab /BinNat.N.compare_gt_iff bd.
  exact/BinNat.N.compare_gt_iff/(BinNat.N.lt_trans _ _ _ bd ab).
Qed.

Lemma string_leb_trans : transitive String.leb.
Proof.
move=> b a; rewrite /String.leb.
elim: a b => [|ca a IH] [|cb b] [|cd d] //=.
case ab: (Ascii.compare ca cb); case bd: (Ascii.compare cb cd) => //=.
- by rewrite (ascii_compare_trans ab bd); exact: IH.
- by move: bd; rewrite -(Ascii.compare_eq_iff _ _ ab) => ->.
- by move: ab; rewrite (Ascii.compare_eq_iff _ _ bd) => ->.
- by rewrite (ascii_compare_trans ab bd).
Qed.

Lemma string_leb_total : total String.leb.
Proof. by move=> a b; case: (String.leb_total a b) => ->; rewrite ?orbT. Qed.

Lemma string_leb_anti : antisymmetric String.leb.
Proof. by move=> a b /andP [ab ba]; exact: String.leb_antisym. Qed.

(** ** [_normalize_languages] *)

(** The tokens of the requested entries that survive cleaning. *)
Definition cleaned_codes (languages : seq string) : seq string :=
  [seq c <- [seq lower (strip token)
               | token <- flatten [seq split_commas lang | lang <- languages]]
     | truthy c].

(** A normalized language code: not empty, trimmed, lowercase, and free of
    commas. *)
Definition clean_code (c : string) : bool :=
  [&& c != EmptyString, strip c == c, lower c == c & ~~ has_comma c].

(** [c] is the cleaned form of a comma-separated token of an entry. *)
Definition code_of_entry (languages : seq string) (c : string) : bool :=
  has (fun lang => has (fun token => lower (strip token) == c) (split_commas lang))
    languages.

Lemma normalize_languagesE (languages : seq string) :
  _normalize_languages languages =
  sort String.leb (undup (cleaned_codes languages)).
Proof. by []. Qed.

Lemma mem_cleaned_codes (languages : seq string) (c : string) :
  (c \in cleaned_codes languages) = truthy c && code_of_entry languages c.
Proof.
rewrite /cleaned_codes mem_filter; congr (_ && _).
apply/mapP/hasP => [[token /flattenP [tokens /mapP [lang lang_in ->] token_in] ->]|].
  by exists lang => //; apply/hasP; exists token.
case=> lang lang_in /hasP [token token_in /eqP <-].
exists token => //; apply/flattenP; exists (split_commas lang) => //.
by apply/mapP; exists lang.
Qed.

Lemma cleaned_code_is_clean (token : string) :
  ~~ has_comma token -> truthy (lower (strip token)) ->
  clean_code (lower (strip token)).
Proof.
move=> no_comma nonempty; apply/and4P; split=> //.
- by rewrite strip_lower strip_idem.
- by rewrite lower_idem.
- rewrite has_comma_lower; apply: contra no_comma.
  exact: has_comma_strip.
Qed.

Lemma clean_code_fixed (c : string) :
  clean_code c -> [/\ truthy c, lower (strip c) = c & split_commas c = [:: c]].
Proof.
case/and4P => nonempty /eqP stripped /eqP lowered no_comma; split=> //.
  by rewrite stripped.
exact: split_commas_no_comma.
Qed.

Lemma all_clean_normalize (languages : seq string) :
  all clean_code (_normalize_languages languages).
Proof.
apply/allP => c; rewrite normalize_languagesE mem_sort mem_undup /cleaned_codes.
rewrite mem_filter => /andP [nonempty /mapP [token token_in cE]].
rewrite cE in nonempty *; apply: cleaned_code_is_clean nonempty.
case/flattenP: token_in => tokens /mapP [lang _ ->].
by move/allP: (split_commas_tokens lang); apply.
Qed.

(** A list of clean codes is cleaned to itself. *)
Lemma cleaned_codes_clean (codes : seq string) :
  all clean_code codes -> cleaned_codes codes = codes.
Proof.
rewrite /cleaned_codes; elim: codes => [|c codes IH] //= /andP [c_ok /IH {}IH].
have [nonempty fixed ->] := clean_code_fixed c_ok.
by rewrite /= fixed nonempty IH.
Qed.

Lemma sorted_normalize (languages : seq string) :
  sorted String.leb (_normalize_languages languages).
Proof. exact: sort_sorted string_leb_total _. Qed.

Lemma uniq_normalize (languages : seq string) :
  uniq (_normalize_languages languages).
Proof. by rewrite normalize_languagesE sort_uniq undup_uniq. Qed.

(** X1: the result is strictly ascending, and every code in it is clean. *)
Theorem normalize_languages_sorted_clean (languages : seq string) :
  let codes := _normalize_languages languages in
  [/\ sorted String.leb codes,
      uniq codes,
      sorted (fun a b => String.leb a b && (a != b)) codes
    & all clean_code codes].
Proof.
move=> codes.
have srt : sorted String.leb codes by exact: sorted_normalize.
have unq : uniq codes by exact: uniq_normalize.
split=> //; last exact: all_clean_normalize.
move: srt unq; rewrite !(sorted_pairwise string_leb_trans).
have strict_trans : transitive (fun a b => String.leb a b && (a != b)).
  move=> b a c /andP [ab a_b] /andP [bc b_c].
  rewrite (string_leb_trans ab bc) /=; apply/eqP => ac.
  by move: a_b; rewrite (@string_leb_anti a b) ?eqxx // ab ac bc.
rewrite (sorted_pairwise strict_trans).
elim: codes => [|c codes IH] //= /andP [c_le /IH {}IH] /andP [c_notin /IH ->].
rewrite andbT; apply/allP => d d_in; move/allP/(_ d d_in): c_le => ->.
by apply: contraNneq c_notin => ->.
Qed.

(** X3: only the set of entries matters: their order and their repetitions
    do not. *)
Theorem normalize_languages_set (languages languages' : seq string) :
  languages =i languages' ->
  _normalize_languages languages = _normalize_languages languages'.
Proof.
move=> same; rewrite !normalize_languagesE.
apply/(perm_sortP string_leb_total string_leb_trans string_leb_anti).
apply: perm_undup => c; rewrite !mem_cleaned_codes /code_of_entry.
by congr (_ && _); apply: eq_has_r.
Qed.

Lemma normalize_languages_set_witness :
  _normalize_languages [:: "fr"; "EN"; "fr"]%string =
  _normalize_languages [:: "EN"; "fr"]%string.
Proof.
apply: normalize_languages_set => c.
by rewrite !inE orbCA orbb orbC.
Defined.

(** X4: normalizing twice changes nothing. *)
Theorem normalize_languages_idempotent (languages : seq string) :
  _normalize_languages (_normalize_languages languages) =
  _normalize_languages languages.
Proof.
rewrite {1}normalize_languagesE cleaned_codes_clean ?all_clean_normalize //.
rewrite undup_id ?uniq_normalize //.
exact: sorted_sort string_leb_trans _ (sorted_normalize languages).
Qed.

(** X5: an entry with a comma counts as the two entries around the comma. *)
Theorem normalize_languages_comma (before after : seq string) (a b : string) :
  _normalize_languages
    (before ++ String.append a (String "," b) :: after) =
  _normalize_languages (before ++ a :: b :: after).
Proof.
rewrite !normalize_languagesE /cleaned_codes.
by rewrite !map_cat /= !flatten_cat /= split_commas_cat -!catA.
Qed.
